(** * Verification of the wattmonk RAG chatbot pipeline

    A shallow embedding of the chunking, embedding, storage and query
    code under [Backend/services] and of the command-line chatbot in
    [Backend/gemini_rag_chatbot.py], with the properties of the
    natural-language specification stated and settled against it. *)

From Stdlib Require Import List ZArith NArith Lia Bool String Ascii QArith.
From Stdlib Require Import DecimalString DecimalZ DecimalPos Sorted Permutation.
From Stdlib Require Import Lqa.
Import ListNotations.

Local Open Scope Z_scope.

(* ================================================================== *)
(** * Python text: sequences of code points *)
(* ================================================================== *)

Module PyText.

(** A Python [str] is a sequence of Unicode code points. *)
Definition char := N.
Definition text := list char.

Definition LF : char := 10%N.
Definition SPACE : char := 32%N.
Definition DOT : char := 46%N.

(** [len(s)] as a Python integer. *)
Definition len (s : text) : Z := Z.of_nat (List.length s).

(** The interpreter's whitespace table, used both by [str.strip] and by
    the [\s] class of [re] on [str] patterns. *)
Definition is_space (c : char) : bool :=
  ((9 <=? c) && (c <=? 13) || (28 <=? c) && (c <=? 32)
   || (c =? 133) || (c =? 160) || (c =? 5760)
   || (8192 <=? c) && (c <=? 8202)
   || (c =? 8232) || (c =? 8233) || (c =? 8239) || (c =? 8287)
   || (c =? 12288))%N.

Definition is_newline (c : char) : bool := (c =? LF)%N.

(** The character class [[^\x20-\x7E\n]]. *)
Definition non_printable (c : char) : bool :=
  negb (((32 <=? c) && (c <=? 126)) || (c =? LF))%N.

(** [re.sub(p+, r, s)] for a one-character class [p]: every maximal run
    of characters of the class is replaced by the single character [r].
    [in_run] records that the previous character belonged to a run. *)
Fixpoint sub_runs (p : char -> bool) (r : char) (in_run : bool) (s : text)
  : text :=
  match s with
  | [] => []
  | c :: s' =>
      if p c then
        if in_run then sub_runs p r true s' else r :: sub_runs p r true s'
      else c :: sub_runs p r false s'
  end.

(** [re.sub(p, '', s)] for a one-character class [p]. *)
Definition sub_delete (p : char -> bool) (s : text) : text :=
  filter (fun c => negb (p c)) s.

Fixpoint lstrip (s : text) : text :=
  match s with
  | [] => []
  | c :: s' => if is_space c then lstrip s' else s
  end.

Definition rstrip (s : text) : text := rev (lstrip (rev s)).

(** [s.strip()] *)
Definition strip (s : text) : text := rstrip (lstrip s).

(** Python's normalisation of one slice bound against a length. *)
Definition norm_index (n i : Z) : Z :=
  if i <? 0 then Z.max 0 (i + n) else Z.min i n.

(** [s[i:j]] with Python's treatment of negative and oversized bounds. *)
Definition slice (s : text) (i j : Z) : text :=
  let a := norm_index (len s) i in
  let b := norm_index (len s) j in
  firstn (Z.to_nat (b - a)) (skipn (Z.to_nat a) s).

Fixpoint starts_with (sub s : text) : bool :=
  match sub, s with
  | [], _ => true
  | _ :: _, [] => false
  | a :: sub', b :: s' => (a =? b)%N && starts_with sub' s'
  end.

(** Scan left to right at offset [i], remembering the last offset at
    which [sub] occurs. *)
Fixpoint rfind_from (sub s : text) (i best : Z) : Z :=
  let best' := if starts_with sub s then i else best in
  match s with
  | [] => best'
  | _ :: s' => rfind_from sub s' (i + 1) best'
  end.

(** [s.rfind(sub)]: the highest index at which [sub] occurs in [s], or
    [-1]. *)
Definition rfind (s sub : text) : Z := rfind_from sub s 0 (-1).

(** Code points of an ASCII literal. *)
Fixpoint of_string (s : string) : text :=
  match s with
  | EmptyString => []
  | String a s' => N_of_ascii a :: of_string s'
  end.

(** [str(n)] for a Python integer. *)
Definition str_int (n : Z) : text :=
  of_string (DecimalString.NilZero.string_of_int (Z.to_int n)).

(** [l[i:i + size]] for [i] in [range(0, len(l), size)] with a positive
    step: the groups, in order. [fuel] bounds the number of groups. *)
Fixpoint groups_of {A} (fuel : nat) (size : nat) (l : list A)
  : list (list A) :=
  match fuel with
  | O => []
  | S fuel' =>
      match l with
      | [] => []
      | _ :: _ => firstn size l :: groups_of fuel' size (skipn size l)
      end
  end.

Definition range_groups {A} (size : nat) (l : list A) : list (list A) :=
  groups_of (List.length l) size l.

End PyText.

(* ================================================================== *)
(** * config.py *)
(* ================================================================== *)

Module Config.

(** The fields of [config.Settings] read by the pipeline. *)
Record Settings := mkSettings {
  CHUNK_SIZE : Z;
  CHUNK_OVERLAP : Z;
  TOP_K_RESULTS : Z
}.

(** The defaults of [config.py] when the environment sets nothing. *)
Definition default_settings : Settings := mkSettings 500 100 5.

(** [x or d] on an optional integer argument: [None] and [0] are both
    falsy and give the default. *)
Definition or_default (x : option Z) (d : Z) : Z :=
  match x with
  | None => d
  | Some v => if v =? 0 then d else v
  end.

End Config.

(* ================================================================== *)
(** * services/pdf_processor.py *)
(* ================================================================== *)

Module PdfProcessor.
Import PyText Config.

Definition clean_text (t : text) : text :=
  let t := sub_runs is_newline LF false t in
  let t := sub_runs is_space SPACE false t in
  let t := sub_delete non_printable t in
  strip t.

(** One entry of the list returned by [chunk_text]. The [chunk_id] is a
    fresh [uuid4] on which no property here depends; it is left out. *)
Record Chunk := mkChunk {
  chunk_body : text;
  page_number : Z;
  source : string
}.

(** [b > chunk_size * 0.5] for integers [b] and [chunk_size] (exact in
    double precision for every size below 2^53). *)
Definition past_half (b chunk_size : Z) : bool := chunk_size <? 2 * b.

(** The body of one iteration of the [while] loop up to the point where
    the chunk is appended: the final [end] of the window starting at
    [start]. *)
Definition window_end (t : text) (chunk_size start : Z) : Z :=
  let end_ := start + chunk_size in
  let chunk := slice t start end_ in
  if end_ <? len t then
    let paragraph_break := rfind chunk [LF] in
    let sentence_break := rfind chunk [DOT; SPACE] in
    if past_half paragraph_break chunk_size then start + paragraph_break + 1
    else if past_half sentence_break chunk_size then start + sentence_break + 2
    else end_
  else end_.

(** The [while start < len(text)] loop. Python gives no bound on the
    number of iterations; [fuel] counts them and [None] means the fuel
    ran out before the loop condition became false. *)
Fixpoint chunk_loop (fuel : nat) (t : text) (page : Z) (src : string)
    (chunk_size chunk_overlap start : Z) (chunks : list Chunk)
  : option (list Chunk) :=
  match fuel with
  | O => None
  | S fuel' =>
      if start <? len t then
        let end_ := window_end t chunk_size start in
        let chunk := slice t start end_ in
        chunk_loop fuel' t page src chunk_size chunk_overlap
          (end_ - chunk_overlap)
          (chunks ++ [mkChunk (strip chunk) page src])
      else Some chunks
  end.

Definition chunk_text (st : Settings) (fuel : nat) (raw : text) (page : Z)
    (src : string) (chunk_size chunk_overlap : option Z)
  : option (list Chunk) :=
  let chunk_size := or_default chunk_size (CHUNK_SIZE st) in
  let chunk_overlap := or_default chunk_overlap (CHUNK_OVERLAP st) in
  let t := clean_text raw in
  if len t <=? chunk_size then Some [mkChunk t page src]
  else chunk_loop fuel t page src chunk_size chunk_overlap 0 [].

(** The windows [(start, end)] the loop cuts, in order: the same
    iteration as [chunk_loop], keeping the bounds instead of the text. *)
Fixpoint chunk_windows (fuel : nat) (t : text) (chunk_size chunk_overlap
    start : Z) : option (list (Z * Z)) :=
  match fuel with
  | O => None
  | S fuel' =>
      if start <? len t then
        let end_ := window_end t chunk_size start in
        match chunk_windows fuel' t chunk_size chunk_overlap
                (end_ - chunk_overlap) with
        | Some ws => Some ((start, end_) :: ws)
        | None => None
        end
      else Some []
  end.

End PdfProcessor.

(* ================================================================== *)
(** * Effects: backend calls, sleeps and exceptions *)
(* ================================================================== *)

Module Effects.
Import PyText.

(** An embedding vector. The code only passes the numbers through and
    builds [0.0]; they are carried as rationals. *)
Definition vector := list Q.

(** The exceptions that travel through the services. [BackendError] is
    whatever a remote client raises, with [str(e)] as its payload;
    [RetryError] is tenacity's wrapper around the last failure. *)
Inductive exn :=
| BackendError (msg : text)
| ValueError (msg : text)
| RetryError (last : exn)
| AttributeError (msg : text)
| UnicodeEncodeError (msg : text).

(** [str(e)]. The text tenacity gives a [RetryError] names a future
    object; it only ever reaches printed messages and is rendered here
    by the text of the wrapped exception. *)
Fixpoint str_exn (e : exn) : text :=
  match e with
  | BackendError msg => msg
  | ValueError msg => msg
  | RetryError last => of_string "RetryError[" ++ str_exn last ++ of_string "]"
  | AttributeError msg => msg
  | UnicodeEncodeError msg => msg
  end.

(** One entry sent to [index.upsert]. *)
Record VectorEntry := mkEntry {
  entry_id : text;
  entry_values : vector;
  entry_text : text;
  entry_source : text;
  entry_page : Z
}.

(** What the outside world observes of a run. *)
Inductive event :=
| EmbedCall (content : text)                       (* genai.embed_content *)
| GenerateCall (prompt : text)                     (* model.generate_content *)
| UpsertCall (batch : list VectorEntry) (namespace : text) (* index.upsert *)
| QueryCall (v : vector) (top_k : Z) (namespace : text)    (* index.query *)
| Sleep (seconds : Z)                              (* tenacity's wait *)
| Stdout (msg : text)
| ListIndexes                                      (* pinecone.list_indexes *)
| CreateIndex (name : text) (dimension : Z) (metric : text)
                                                   (* pinecone.create_index *)
| ConnectIndex (name : text).                      (* pinecone.Index *)

(** A computation: the events it performed, then an exception or a
    value. *)
Definition M (A : Type) : Type := (list event * (exn + A))%type.

Definition ret {A} (a : A) : M A := ([], inr a).
Definition raise {A} (e : exn) : M A := ([], inl e).
Definition emit (ev : event) : M unit := ([ev], inr tt).

Definition bind {A B} (m : M A) (f : A -> M B) : M B :=
  match m with
  | (tr, inl e) => (tr, inl e)
  | (tr, inr a) => let (tr', r) := f a in (tr ++ tr', r)
  end.

(** [try: m except Exception as e: h e] *)
Definition try_except {A} (m : M A) (h : exn -> M A) : M A :=
  match m with
  | (tr, inl e) => let (tr', r) := h e in (tr ++ tr', r)
  | (tr, inr a) => (tr, inr a)
  end.

Definition trace {A} (m : M A) : list event := fst m.
Definition outcome {A} (m : M A) : exn + A := snd m.

Notation "x <- m ;; k" := (bind m (fun x => k))
  (at level 61, m at next level, right associativity).
Notation "m ;;; k" := (bind m (fun _ => k))
  (at level 61, right associativity).

(** tenacity's [wait_exponential(multiplier, min, max)] after the given
    attempt (attempts count from 1), as computed by tenacity 8. *)
Definition wait_exponential (multiplier min_ max_ : Z) (attempt : nat) : Z :=
  Z.max (Z.max 0 min_) (Z.min (multiplier * 2 ^ (Z.of_nat attempt - 1)) max_).

(** tenacity's retry loop around a body whose behaviour may differ from
    one attempt to the next: [more] further attempts are allowed after
    attempt number [attempt]. Every exception is retried (no [retry=]
    predicate is given) and the last one is wrapped in [RetryError] (no
    [reraise=True]). *)
Fixpoint retrying {A} (more attempt : nat) (body : nat -> M A) : M A :=
  try_except (body attempt) (fun e =>
    match more with
    | O => raise (RetryError e)
    | S more' =>
        emit (Sleep (wait_exponential 1 1 10 attempt)) ;;;
        retrying more' (S attempt) body
    end).

(** [@retry(stop=stop_after_attempt(3),
            wait=wait_exponential(multiplier=1, min=1, max=10))] *)
Definition retry3 {A} (body : nat -> M A) : M A := retrying 2 1 body.

(** [sub in s] *)
Fixpoint contains (sub s : text) : bool :=
  starts_with sub s ||
  match s with
  | [] => false
  | _ :: s' => contains sub s'
  end.

Definition embed_calls (tr : list event) : list text :=
  flat_map (fun ev => match ev with EmbedCall c => [c] | _ => [] end) tr.

Definition generate_calls (tr : list event) : list text :=
  flat_map (fun ev => match ev with GenerateCall p => [p] | _ => [] end) tr.

Definition upsert_calls (tr : list event) : list (list VectorEntry) :=
  flat_map (fun ev => match ev with UpsertCall b _ => [b] | _ => [] end) tr.

Definition sleeps (tr : list event) : list Z :=
  flat_map (fun ev => match ev with Sleep s => [s] | _ => [] end) tr.

End Effects.

(* ================================================================== *)
(** * services/embedding_service.py *)
(* ================================================================== *)

Module EmbeddingService.
Import PyText Effects.

(** What [genai.embed_content] does on the successive attempts of one
    call of [create_embedding]: attempt [k] (from 1) raises or returns
    the vector under the ["embedding"] key. *)
Definition EmbedScript := nat -> exn + vector.

(** The body of [create_embedding], one attempt. *)
Definition create_embedding_attempt (backend : exn + vector) (t : text)
  : M vector :=
  try_except
    (emit (EmbedCall t) ;;;
     match backend with
     | inl e => raise e
     | inr v => ret v
     end)
    (fun e =>
       if contains (of_string "API key not valid") (str_exn e) then
         raise (ValueError
           (of_string "Invalid Google API key. Please check your .env file."))
       else
         raise (ValueError
           (of_string "Error creating embedding: " ++ str_exn e))).

Definition create_embedding (script : EmbedScript) (t : text) : M vector :=
  retry3 (fun attempt => create_embedding_attempt (script attempt) t).

Definition embed_query (script : EmbedScript) (query : text) : M vector :=
  create_embedding script query.

(** [[0.0] * 768] *)
Definition zero_vector : vector := repeat 0%Q 768.

(** [asyncio.gather] with [return_exceptions=True] over the tasks of
    one group: every task runs to its end, exceptions become results.
    The events of concurrent tasks are listed task by task; their real
    interleaving is not fixed by the code and nothing here depends on
    it. *)
Definition gather {A} (tasks : list (M A)) : M (list (exn + A)) :=
  (flat_map trace tasks, inr (map outcome tasks)).

(** The [for j, embedding in enumerate(batch_embeddings)] loop. [first]
    and [again] give, for the text at absolute position [p], the script
    of its gathered call and of its isolated retry. *)
Fixpoint collect_group (again : nat -> EmbedScript) (i j : nat)
    (batch : list text) (batch_embeddings : list (exn + vector))
    (all_embeddings : list vector) : M (list vector) :=
  match batch_embeddings, batch with
  | [], _ => ret all_embeddings
  | _ :: _, [] => ret all_embeddings
  | embedding :: rest, t :: batch' =>
      all' <-
        match embedding with
        | inl e =>
            emit (Stdout (of_string "Error creating embedding for text "
                           ++ str_int (Z.of_nat (i + j)) ++ of_string ": "
                           ++ str_exn e)) ;;;
            try_except
              (embedding' <- create_embedding (again (i + j)%nat) t ;;
               ret (all_embeddings ++ [embedding']))
              (fun e' =>
                 emit (Stdout (of_string "Retry failed for text "
                                ++ str_int (Z.of_nat (i + j)) ++ of_string ": "
                                ++ str_exn e')) ;;;
                 ret (all_embeddings ++ [zero_vector]))
        | inr v => ret (all_embeddings ++ [v])
        end ;;
      collect_group again i (S j) batch' rest all'
  end.

(** The tasks of one group: [create_embedding(text) for text in batch]. *)
Fixpoint group_tasks (first : nat -> EmbedScript) (p : nat)
    (batch : list text) : list (M vector) :=
  match batch with
  | [] => []
  | t :: batch' => create_embedding (first p) t :: group_tasks first (S p) batch'
  end.

(** The outer [for i in range(0, len(texts), batch_size)] loop over the
    groups. *)
Fixpoint embed_groups (first again : nat -> EmbedScript) (i : nat)
    (groups : list (list text)) (all_embeddings : list vector)
  : M (list vector) :=
  match groups with
  | [] => ret all_embeddings
  | batch :: groups' =>
      batch_embeddings <- gather (group_tasks first i batch) ;;
      all' <- collect_group again i 0 batch batch_embeddings all_embeddings ;;
      embed_groups first again (i + List.length batch)%nat groups' all'
  end.

(** [create_embeddings_batch(texts, batch_size)]. A zero step makes
    [range] raise, a negative one makes it empty. *)
Definition create_embeddings_batch (first again : nat -> EmbedScript)
    (texts : list text) (batch_size : Z) : M (list vector) :=
  if batch_size =? 0 then
    raise (ValueError (of_string "range() arg 3 must not be zero"))
  else if batch_size <? 0 then ret []
  else embed_groups first again 0
         (range_groups (Z.to_nat batch_size) texts) [].

End EmbeddingService.

(* ================================================================== *)
(** * gemini_rag_chatbot.py *)
(* ================================================================== *)

Module GeminiRagChatbot.
Import PyText Effects.

(** [RAGChatbot._get_embedding]: [backend] is what [genai.embed_content]
    does if it is called. *)
Definition _get_embedding (backend : exn + vector) (t : text) : M vector :=
  match strip t with
  | [] =>
      emit (Stdout (of_string
        "Attempted to embed an empty string. Returning zero vector.")) ;;;
      ret (repeat 0%Q 768)
  | _ :: _ =>
      try_except
        (emit (EmbedCall t) ;;;
         match backend with
         | inl e => raise e
         | inr v => ret v
         end)
        (fun e =>
           emit (Stdout (of_string "Error generating embedding for text: '"
                          ++ slice t 0 50 ++ of_string "...'" ++ [LF]
                          ++ of_string "Error: " ++ str_exn e)) ;;;
           ret (repeat 0%Q 768))
  end.

(** A retrieved document of the ChromaDB collection. *)
Record RetrievedDoc := mkDoc {
  doc_content : text;
  doc_metadata : option (option text);
  doc_distance : Q;
  doc_id : text
}.

(** [" sep ".join(parts)] *)
Fixpoint join (sep : text) (parts : list text) : text :=
  match parts with
  | [] => []
  | [p] => p
  | p :: rest => p ++ sep ++ join sep rest
  end.

(** The list comprehension over [enumerate(retrieved_docs[:3])]:
    [doc['metadata'].get('source_file', 'N/A')] raises on a document
    whose metadata is [None]. *)
Fixpoint render_docs (i : nat) (docs : list RetrievedDoc)
  : exn + list text :=
  match docs with
  | [] => inr []
  | doc :: rest =>
      match doc_metadata doc with
      | None =>
          inl (AttributeError
                 (of_string "'NoneType' object has no attribute 'get'"))
      | Some source_file =>
          match render_docs (S i) rest with
          | inl e => inl e
          | inr parts =>
              inr ((of_string "Document " ++ str_int (Z.of_nat (i + 1))
                    ++ of_string " (Source: "
                    ++ match source_file with
                       | Some s => s
                       | None => of_string "N/A"
                       end
                    ++ of_string "): " ++ doc_content doc)
                   :: parts)
          end
      end
  end.

Definition no_information : text :=
  of_string "I couldn't find any relevant information to answer your question.".

(** [RAGChatbot.generate_response]: [backend] is what
    [llm.generate_content] does if it is called. The context is built
    before the [try], so an error there is not caught. *)
Definition generate_response (backend : exn + text) (query : text)
    (retrieved_docs : list RetrievedDoc) : M text :=
  match retrieved_docs with
  | [] => ret no_information
  | _ :: _ =>
      parts <- match render_docs 0 (firstn 3 retrieved_docs) with
               | inl e => raise e
               | inr parts => ret parts
               end ;;
      let context := join [LF; LF] parts in
      let prompt :=
        of_string "You are a helpful assistant. Answer the following question based ONLY on the context provided below. If the information is not in the context, say "
        ++ [34%N] ++ of_string "I don't have enough information to answer that question."
        ++ [34%N] ++ [LF; LF] ++ of_string "Context:" ++ [LF] ++ context
        ++ [LF; LF] ++ of_string "Question: " ++ query ++ [LF; LF]
        ++ of_string "Answer:" in
      try_except
        (emit (GenerateCall prompt) ;;;
         match backend with
         | inl e => raise e
         | inr answer => ret (strip answer)
         end)
        (fun e =>
           emit (Stdout (of_string "Error calling Gemini API: " ++ str_exn e)) ;;;
           ret (of_string "There was an error generating a response."))
  end.

(** What [collection.query] answers with: it raises, or it gives the
    documents found (none for an empty collection). *)
Definition CollectionAnswer := (exn + list RetrievedDoc)%type.

(** [RAGChatbot.retrieve_documents] *)
Definition retrieve_documents (embed : exn + vector)
    (collection : CollectionAnswer) (query : text) (n_results : Z)
  : M (list RetrievedDoc) :=
  query_embedding <- _get_embedding embed query ;;
  emit (QueryCall query_embedding n_results (of_string "gemini_documents")) ;;;
  match collection with
  | inl e => raise e
  | inr docs => ret docs
  end.

Record ChatResult := mkChat {
  chat_query : text;
  chat_response : text;
  chat_retrieved_docs : list RetrievedDoc
}.

(** [RAGChatbot.chat] *)
Definition chat (embed : exn + vector) (collection : CollectionAnswer)
    (llm : exn + text) (query : text) : M ChatResult :=
  retrieved_docs <- retrieve_documents embed collection query 5 ;;
  response <- generate_response llm query retrieved_docs ;;
  ret (mkChat query response retrieved_docs).

End GeminiRagChatbot.

(* ================================================================== *)
(** * services/pinecone_service.py *)
(* ================================================================== *)

Module PineconeService.
Import PyText Config Effects.

(** A chunk dictionary after [embed_chunks]. *)
Record EmbeddedChunk := mkEmbedded {
  ec_text : text;
  ec_source : text;
  ec_page_number : Z;
  ec_chunk_id : text;
  ec_embedding : vector
}.

(** The [vectors] list built at the start of [store_embeddings]. *)
Definition prepare_vectors (chunks : list EmbeddedChunk) : list VectorEntry :=
  map (fun c => mkEntry (ec_chunk_id c) (ec_embedding c) (ec_text c)
                        (ec_source c) (ec_page_number c)) chunks.

(** What [index.upsert] does during one run of the function body, for
    the batch sent as the [k]-th call of that run: it raises, or it
    answers with an optional ["upserted_count"]. *)
Definition UpsertRun := nat -> exn + option Z.

Definition batch_size : nat := 100.

(** The [for i in range(0, len(vectors), batch_size)] loop: [k] is the
    number of batches already sent in this run and [count] is
    [results["upserted_count"]]. *)
Fixpoint upsert_batches (backend : UpsertRun) (namespace : text) (k : nat)
    (batches : list (list VectorEntry)) (count : Z) : M Z :=
  match batches with
  | [] => ret count
  | batch :: rest =>
      count' <-
        try_except
          (emit (UpsertCall batch namespace) ;;;
           match backend k with
           | inl e => raise e
           | inr response =>
               ret (count + match response with Some n => n | None => 0 end)
           end)
          (fun e =>
             if contains (of_string "not found") (str_exn e)
                || contains (of_string "Forbidden") (str_exn e)
             then raise (ValueError (of_string
               "Invalid Pinecone API key or environment. Please check your .env file."))
             else raise (ValueError (of_string
               "Error storing embeddings in Pinecone: " ++ str_exn e))) ;;
      upsert_batches backend namespace (S k) rest count'
  end.

(** What the Pinecone client does during one call of [get_index], for
    each of the three calls [get_index] may make. *)
Record ClientAnswers := mkClient {
  list_indexes : exn + list text;   (* pinecone.list_indexes() *)
  create_index : exn + unit;        (* pinecone.create_index(...) *)
  connect : exn + unit              (* pinecone.Index(name) *)
}.

Definition same_name (a b : text) : bool :=
  if list_eq_dec N.eq_dec a b then true else false.

(** [get_index()]. [cached] is the module's [_index] on entry: the
    index it is connected to, if any, an index being identified by its
    name; [index_name] is [settings.PINECONE_INDEX_NAME]. *)
Definition get_index (index_name : text) (cached : option text)
    (client : ClientAnswers) : M text :=
  match cached with
  | Some index => ret index
  | None =>
      names <- (emit ListIndexes ;;;
                match list_indexes client with
                | inl e => raise e
                | inr names => ret names
                end) ;;
      (if existsb (same_name index_name) names then ret tt
       else
         emit (CreateIndex index_name 768 (of_string "cosine")) ;;;
         match create_index client with
         | inl e => raise e
         | inr _ => ret tt
         end) ;;;
      emit (ConnectIndex index_name) ;;;
      match connect client with
      | inl e => raise e
      | inr _ => ret index_name
      end
  end.

(** [_index] after a call of [get_index]: it is assigned only when the
    call returns. *)
Definition index_after (cached : option text) (call : M text) : option text :=
  match outcome call with
  | inr index => Some index
  | inl _ => cached
  end.

(** [_index] after the first [n] attempts of a retried function that
    calls [get_index] once per attempt, [client a] being what the
    client does during attempt [a] (attempts count from 1). *)
Fixpoint index_state (index_name : text) (cached : option text)
    (client : nat -> ClientAnswers) (n : nat) : option text :=
  match n with
  | O => cached
  | S n' =>
      let before := index_state index_name cached client n' in
      index_after before (get_index index_name before (client (S n')))
  end.

(** One run of the body of [store_embeddings]: [lookup] is its call of
    [get_index]. *)
Definition store_embeddings_body (lookup : M text) (backend : UpsertRun)
    (chunks_with_embeddings : list EmbeddedChunk) (namespace : text) : M Z :=
  index <- lookup ;;
  let vectors := prepare_vectors chunks_with_embeddings in
  upsert_batches backend namespace 0 (range_groups batch_size vectors) 0.

(** [store_embeddings] under its [@retry] decorator: [client a] and
    [script a] are the behaviour of the Pinecone client and of
    [index.upsert] during attempt [a]; [cached] is [_index] when the
    function is called. *)
Definition store_embeddings (index_name : text) (cached : option text)
    (client : nat -> ClientAnswers) (script : nat -> UpsertRun)
    (chunks_with_embeddings : list EmbeddedChunk) (namespace : text) : M Z :=
  retry3 (fun attempt =>
    store_embeddings_body
      (get_index index_name
         (index_state index_name cached client (pred attempt))
         (client attempt))
      (script attempt) chunks_with_embeddings namespace).

(** A match of the response of [index.query]. *)
Record Metadata := mkMetadata {
  md_text : option text;
  md_source : option text;
  md_page_number : option Z;
  md_chunk_id : option text
}.

Record Match := mkMatch {
  match_metadata : option Metadata;
  match_score : option Q
}.

(** A context chunk dictionary; a key may be absent. *)
Record ContextChunk := mkContext {
  cc_text : option text;
  cc_source : option text;
  cc_page_number : option Z;
  cc_chunk_id : option text;
  cc_score : option Q
}.

Definition get {A} (x : option A) (default : A) : A :=
  match x with Some v => v | None => default end.

Definition result_of_match (m : Match) : ContextChunk :=
  let metadata := get (match_metadata m) (mkMetadata None None None None) in
  mkContext (Some (get (md_text metadata) []))
            (Some (get (md_source metadata) []))
            (Some (get (md_page_number metadata) 0))
            (Some (get (md_chunk_id metadata) []))
            (Some (get (match_score m) 0%Q)).

(** What [index.query] does on attempt [k]: it raises, or it answers
    with an optional ["matches"] list. *)
Definition SearchScript := nat -> exn + option (list Match).

Definition similarity_search (st : Settings) (script : SearchScript)
    (query_embedding : vector) (top_k : option Z) (namespace : text)
  : M (list ContextChunk) :=
  retry3 (fun attempt =>
    let top_k := or_default top_k (TOP_K_RESULTS st) in
    emit (QueryCall query_embedding top_k namespace) ;;;
    match script attempt with
    | inl e => raise e
    | inr response => ret (map result_of_match (get response []))
    end).

End PineconeService.

(* ================================================================== *)
(** * services/rag_service.py *)
(* ================================================================== *)

Module RagService.
Import PyText Config Effects PineconeService.

Definition score_key (c : ContextChunk) : Q := get (cc_score c) 0%Q.

(** Insertion keeping equal scores in their original order. *)
Fixpoint insert_desc (c : ContextChunk) (sorted : list ContextChunk)
  : list ContextChunk :=
  match sorted with
  | [] => [c]
  | d :: rest =>
      if Qle_bool (score_key d) (score_key c) then c :: d :: rest
      else d :: insert_desc c rest
  end.

(** [sorted(context_chunks, key=score, reverse=True)]: a stable sort,
    highest score first. *)
Definition sorted_desc (l : list ContextChunk) : list ContextChunk :=
  fold_right insert_desc [] l.

(** The [for i, chunk in enumerate(sorted_chunks)] loop. *)
Fixpoint render_chunks (i : nat) (chunks : list ContextChunk)
    (formatted_context : text) : text :=
  match chunks with
  | [] => formatted_context
  | chunk :: rest =>
      let header :=
        [LF; LF] ++ of_string "CONTEXT CHUNK " ++ str_int (Z.of_nat (i + 1))
        ++ of_string " [Source: " ++ get (cc_source chunk) (of_string "Unknown")
        ++ of_string ", Page: " ++ str_int (get (cc_page_number chunk) 0)
        ++ of_string "]:" ++ [LF] in
      render_chunks (S i) rest
        ((formatted_context ++ header) ++ get (cc_text chunk) [])
  end.

Definition format_context (context_chunks : list ContextChunk) : text :=
  render_chunks 0 (sorted_desc context_chunks) [].

Definition build_prompt (context query : text) : text :=
  of_string "You are an AI assistant that answers questions based on the provided context."
  ++ [LF] ++ of_string "    " ++ [LF]
  ++ of_string "CONTEXT:" ++ [LF] ++ context ++ [LF; LF]
  ++ of_string "USER QUERY: " ++ query ++ [LF; LF]
  ++ of_string "Please answer the query based only on the provided context. If the context doesn't contain relevant information to answer the query, "
  ++ [LF]
  ++ of_string "state that you don't have enough information to provide a complete answer. Do not make up information."
  ++ [LF]
  ++ of_string "Cite the sources (document name and page number) when providing information from the context."
  ++ [LF; LF] ++ of_string "ANSWER:".

(** What [model.generate_content] does on attempt [k]: it raises, or it
    answers with the response text. *)
Definition GenerateScript := nat -> exn + text.

Definition generate_response (script : GenerateScript) (query : text)
    (context_chunks : list ContextChunk) : M text :=
  retry3 (fun attempt =>
    let context := format_context context_chunks in
    let prompt := build_prompt context query in
    try_except
      (emit (GenerateCall prompt) ;;;
       match script attempt with
       | inl e => raise e
       | inr answer => ret answer
       end)
      (fun e => raise (ValueError
         (of_string "Error generating response: " ++ str_exn e)))).

Record QueryResult := mkResult {
  response : text;
  sources : list ContextChunk
}.

Definition process_query (st : Settings)
    (embed : EmbeddingService.EmbedScript) (search : SearchScript)
    (generate : GenerateScript) (query namespace : text) : M QueryResult :=
  query_embedding <- EmbeddingService.embed_query embed query ;;
  context_chunks <-
    similarity_search st search query_embedding (Some (TOP_K_RESULTS st))
      namespace ;;
  response_text <- generate_response generate query context_chunks ;;
  ret (mkResult response_text context_chunks).

End RagService.

(* ================================================================== *)
(** * The chunker's contract, as predicates on windows *)
(* ================================================================== *)

Module ChunkerSpec.
Import PyText Config PdfProcessor.

(** A window [(start, end)] denotes the characters [start .. end-1]. *)
Definition window := (Z * Z)%type.

Definition window_text (t : text) (w : window) : text :=
  slice t (fst w) (snd w).

(** Every position of a text of length [n] lies in some window. *)
Definition covers (n : Z) (ws : list window) : Prop :=
  forall i, 0 <= i < n -> Exists (fun w => fst w <= i < snd w) ws.

(** Each window shares between 0 and [overlap] characters of the text
    with the next one. *)
Fixpoint consecutive_overlaps (n overlap : Z) (ws : list window) : Prop :=
  match ws with
  | w1 :: ((w2 :: _) as rest) =>
      0 <= Z.min (snd w1) n - fst w2 <= overlap /\
      consecutive_overlaps n overlap rest
  | _ => True
  end.

Definition windows_ok (n max_size overlap : Z) (ws : list window) : Prop :=
  Forall (fun w => 0 <= fst w <= snd w /\ snd w - fst w <= max_size) ws /\
  covers n ws /\
  consecutive_overlaps n overlap ws.

(** The chunking property as the specification words it: [chunk_text]
    returns chunks of at most [max_size] characters which are the
    windows of the cleaned text, the windows covering it and
    overlapping by at most [overlap]. *)
Definition chunks_as_specified (st : Settings) (raw : text) (page : Z)
    (src : string) (max_size overlap : Z) : Prop :=
  exists fuel chunks ws,
    chunk_text st fuel raw page src (Some max_size) (Some overlap)
      = Some chunks /\
    Forall (fun c => len (chunk_body c) <= max_size) chunks /\
    map chunk_body chunks = map (window_text (clean_text raw)) ws /\
    windows_ok (len (clean_text raw)) max_size overlap ws.

(** What the code provides: the same, each chunk being its window with
    the surrounding whitespace stripped. [chunk_size] and
    [chunk_overlap] are the arguments as passed; [max_size] and
    [overlap] the values in force. *)
Definition chunks_as_built (st : Settings) (raw : text) (page : Z)
    (src : string) (chunk_size chunk_overlap : option Z)
    (max_size overlap : Z) : Prop :=
  exists fuel chunks ws,
    chunk_text st fuel raw page src chunk_size chunk_overlap = Some chunks /\
    Forall (fun c => len (chunk_body c) <= max_size) chunks /\
    map chunk_body chunks
      = map (fun w => strip (window_text (clean_text raw) w)) ws /\
    windows_ok (len (clean_text raw)) max_size overlap ws.

(** An argument that [x or default] lets through. *)
Definition truthy (x : option Z) : Prop := x <> Some 0.

(** Inputs used below. *)
Definition two_words : text := of_string "aaaa bbbbbb".
Definition one_sentence : text := of_string "aaaaaa. bbbbbbbbbbbb".
Definition two_paragraphs : text :=
  of_string "aaaaaa" ++ [LF] ++ of_string "bbbbbbbbbbbbb".

End ChunkerSpec.

(* ================================================================== *)
(** * The gateways' contracts and the scenarios used to test them *)
(* ================================================================== *)

Module GatewaySpec.
Import PyText Config Effects EmbeddingService PineconeService RagService.

(** The vector the batch contract promises for the text at position
    [p]: the result of its gathered call, else the result of one
    isolated retry, else the zero vector. *)
Definition settled (first again : nat -> EmbedScript) (p : nat) (t : text)
  : vector :=
  match outcome (create_embedding (first p) t) with
  | inr v => v
  | inl _ =>
      match outcome (create_embedding (again p) t) with
      | inr v => v
      | inl _ => zero_vector
      end
  end.

Fixpoint settled_from (first again : nat -> EmbedScript) (p : nat)
    (texts : list text) : list vector :=
  match texts with
  | [] => []
  | t :: rest => settled first again p t :: settled_from first again (S p) rest
  end.



(** A backend that always answers with the same vector. *)
Definition always (v : vector) : EmbedScript := fun _ => inr v.

(** A backend that rejects the credential on every attempt. *)
Definition invalid_key : EmbedScript :=
  fun _ => inl (BackendError
    (of_string "400 API key not valid. Please pass a valid API key.")).

(** A backend that fails on every attempt for a transient reason. *)
Definition unreachable : EmbedScript :=
  fun _ => inl (BackendError (of_string "503 Service Unavailable")).




(** Four retrieved matches, best first. *)
Definition match_of (t : string) (page : Z) (score : Q) : Match :=
  mkMatch (Some (mkMetadata (Some (of_string t)) (Some (of_string "manual.pdf"))
                            (Some page) (Some (of_string t))))
          (Some score).

Definition four_matches : list Match :=
  [match_of "first" 1 (9 # 10); match_of "second" 2 (8 # 10);
   match_of "third" 3 (7 # 10); match_of "fourth" 4 (1 # 10)].

Definition four_docs : list GeminiRagChatbot.RetrievedDoc :=
  [GeminiRagChatbot.mkDoc (of_string "first") (Some None) (1 # 10) (of_string "d0");
   GeminiRagChatbot.mkDoc (of_string "second") (Some None) (2 # 10) (of_string "d1");
   GeminiRagChatbot.mkDoc (of_string "third") (Some None) (3 # 10) (of_string "d2");
   GeminiRagChatbot.mkDoc (of_string "fourth") (Some None) (9 # 10) (of_string "d3")].

(** 101 embedded chunks with distinct ids: two batches. *)
Definition numbered_chunk (i : nat) : EmbeddedChunk :=
  mkEmbedded (of_string "text") (of_string "manual.pdf") 1
             (str_int (Z.of_nat i)) [1%Q].

Definition many_chunks : list EmbeddedChunk := map numbered_chunk (seq 0 101).


(** The error [store_embeddings] raises in place of an error [e] of
    [index.upsert]. *)
Definition storage_error (e : exn) : exn :=
  if contains (of_string "not found") (str_exn e)
     || contains (of_string "Forbidden") (str_exn e)
  then ValueError (of_string
    "Invalid Pinecone API key or environment. Please check your .env file.")
  else ValueError (of_string
    "Error storing embeddings in Pinecone: " ++ str_exn e).

(** What one pass over the batches does when the [k]-th call of
    [index.upsert] behaves as [backend k]: the batches sent, which end
    with the first one that fails, and the error raised, if any. *)
Fixpoint pass_over (backend : UpsertRun) (k : nat)
    (batches : list (list VectorEntry))
  : list (list VectorEntry) * option exn :=
  match batches with
  | [] => ([], None)
  | batch :: rest =>
      match backend k with
      | inl e => ([batch], Some (storage_error e))
      | inr _ =>
          let (sent, error) := pass_over backend (S k) rest in
          (batch :: sent, error)
      end
  end.

(** What attempt [a] of an upsert does: nothing is sent when the index
    lookup raises, and its error is the attempt's; otherwise the attempt
    is one pass over all the batches. *)
Definition upsert_attempt (index_name : text) (cached : option text)
    (client : nat -> ClientAnswers) (script : nat -> UpsertRun)
    (chunks : list EmbeddedChunk) (a : nat)
  : list (list VectorEntry) * option exn :=
  match outcome (get_index index_name
                   (index_state index_name cached client (pred a))
                   (client a)) with
  | inl e => ([], Some e)
  | inr _ =>
      pass_over (script a) 0 (range_groups batch_size (prepare_vectors chunks))
  end.

(** A Pinecone client for which everything works and the index
    exists. *)
Definition healthy_client (index_name : text) : nat -> ClientAnswers :=
  fun _ => mkClient (inr [index_name]) (inr tt) (inr tt).

(** The block [format_context] writes for the chunk of the given
    rank. *)
Definition context_block (rank : nat) (chunk : ContextChunk) : text :=
  [LF; LF] ++ of_string "CONTEXT CHUNK " ++ str_int (Z.of_nat rank)
  ++ of_string " [Source: " ++ get (cc_source chunk) (of_string "Unknown")
  ++ of_string ", Page: " ++ str_int (get (cc_page_number chunk) 0)
  ++ of_string "]:" ++ [LF] ++ get (cc_text chunk) [].

(** The blocks of the chunks, ranked from [rank] on. *)
Fixpoint context_blocks (rank : nat) (chunks : list ContextChunk) : text :=
  match chunks with
  | [] => []
  | chunk :: rest => context_block rank chunk ++ context_blocks (S rank) rest
  end.

End GatewaySpec.

(* ================================================================== *)
(** * The rest of the ingestion code *)
(* ================================================================== *)

Module PdfPipeline.
Import PyText Config PdfProcessor Effects.

(** One entry of the list returned by [extract_text_from_pdf]. *)
Record Page := mkPage {
  page_text : text;
  page_no : Z;
  page_source : string
}.

(** What [PdfReader(pdf_file)] gives: it raises, or it has pages, each
    of which raises or yields a text on [extract_text()]. *)
Definition Reader := (exn + list (exn + text))%type.

(** [if text and text.strip()] *)
Definition has_text (t : text) : bool :=
  match t with
  | [] => false
  | _ :: _ => match strip t with [] => false | _ :: _ => true end
  end.

(** The [for i, page in enumerate(reader.pages)] loop. *)
Fixpoint extract_pages (i : nat) (filename : string)
    (reader_pages : list (exn + text)) (pages : list Page)
  : exn + list Page :=
  match reader_pages with
  | [] => inr pages
  | inl e :: _ => inl e
  | inr t :: rest =>
      extract_pages (S i) filename rest
        (if has_text t
         then pages ++ [mkPage t (Z.of_nat i + 1) filename]
         else pages)
  end.

Definition text_of_string (s : string) : text := of_string s.

Definition extract_text_from_pdf (reader : Reader) (filename : string)
  : M (list Page) :=
  try_except
    (match reader with
     | inl e => raise e
     | inr reader_pages =>
         match extract_pages 0 filename reader_pages [] with
         | inl e => raise e
         | inr pages =>
             match pages with
             | [] =>
                 emit (Stdout (of_string "WARNING: No text extracted from PDF '"
                                 ++ text_of_string filename
                                 ++ of_string "'. It might be an image-based PDF or corrupted.")) ;;;
                 ret pages
             | _ :: _ => ret pages
             end
         end
     end)
    (fun e => raise (ValueError
       (of_string "Error extracting text from PDF: " ++ str_exn e))).

(** The [for page in pages] loop of [process_pdf]; [None] when some
    page exhausts the iterations allowed to [chunk_text]. *)
Fixpoint chunk_pages (st : Settings) (fuel : nat) (pages : list Page)
    (all_chunks : list Chunk) : option (list Chunk) :=
  match pages with
  | [] => Some all_chunks
  | page :: rest =>
      match chunk_text st fuel (page_text page) (page_no page)
              (page_source page) None None with
      | None => None
      | Some page_chunks => chunk_pages st fuel rest (all_chunks ++ page_chunks)
      end
  end.

Record PdfResult := mkPdfResult {
  filename_ : string;
  pages_processed : Z;
  chunks_created : Z;
  chunks_ : list Chunk
}.

Definition process_pdf (st : Settings) (fuel : nat) (reader : Reader)
    (filename : string) : M (option PdfResult) :=
  pages <- extract_text_from_pdf reader filename ;;
  ret (match chunk_pages st fuel pages [] with
       | None => None
       | Some all_chunks =>
           Some (mkPdfResult filename (Z.of_nat (List.length pages)) (Z.of_nat (List.length all_chunks))
                             all_chunks)
       end).

End PdfPipeline.

(* ================================================================== *)
(** * gemini_rag_chatbot.py: ingestion *)
(* ================================================================== *)

Module ChatbotIngest.
Import PyText Effects.

(** The [while start < len(text)] loop of [RAGChatbot.chunk_text];
    [fuel] counts the iterations allowed. *)
Fixpoint chunk_loop (fuel : nat) (t : text) (chunk_size overlap start : Z)
    (chunks : list text) : option (list text) :=
  match fuel with
  | O => None
  | S fuel' =>
      if start <? len t then
        let end_ := start + chunk_size in
        let chunk := strip (slice t start end_) in
        chunk_loop fuel' t chunk_size overlap (start + (chunk_size - overlap))
          (match chunk with
           | [] => chunks
           | _ :: _ => chunks ++ [chunk]
           end)
      else Some chunks
  end.

(** [RAGChatbot.chunk_text(text, chunk_size, overlap)] *)
Definition chunk_text (fuel : nat) (t : text) (chunk_size overlap : Z)
  : option (list text) :=
  if len t <=? chunk_size then Some [t]
  else chunk_loop fuel t chunk_size overlap 0 [].

(** Values stored in a metadata dictionary. *)
Inductive pyval :=
| VStr (s : text)
| VInt (n : Z).

(** A dictionary with text keys, in insertion order. *)
Definition dict := list (text * pyval).

Definition text_eqb (a b : text) : bool :=
  if list_eq_dec N.eq_dec a b then true else false.

(** [d[k] = v] *)
Fixpoint dict_set (d : dict) (k : text) (v : pyval) : dict :=
  match d with
  | [] => [(k, v)]
  | (k', v') :: rest =>
      if text_eqb k k' then (k', v) :: rest else (k', v') :: dict_set rest k v
  end.

(** [d.get(k)] *)
Fixpoint dict_get (d : dict) (k : text) : option pyval :=
  match d with
  | [] => None
  | (k', v') :: rest => if text_eqb k k' then Some v' else dict_get rest k
  end.

(** The arguments of [collection.add]. *)
Record AddCall := mkAdd {
  add_documents : list text;
  add_embeddings : list vector;
  add_ids : list text;
  add_metadatas : list dict
}.

(** [f"{doc_id}_{i}" for i, _ in enumerate(chunks)] *)
Fixpoint chunk_ids (doc_id : text) (i : nat) (chunks : list text) : list text :=
  match chunks with
  | [] => []
  | _ :: rest =>
      (doc_id ++ of_string "_" ++ str_int (Z.of_nat i))
      :: chunk_ids doc_id (S i) rest
  end.

(** The [for i, chunk in enumerate(chunks)] loop building the chunk
    metadata from the document's. *)
Fixpoint chunk_metadatas (metadata : dict) (doc_id : text) (total : Z)
    (i : nat) (chunks : list text) : list dict :=
  match chunks with
  | [] => []
  | _ :: rest =>
      dict_set (dict_set (dict_set metadata
        (of_string "chunk_index") (VInt (Z.of_nat i)))
        (of_string "total_chunks") (VInt total))
        (of_string "parent_doc_id") (VStr doc_id)
      :: chunk_metadatas metadata doc_id total (S i) rest
  end.

(** [[self._get_embedding(chunk) for chunk in chunks]]: [backend i] is
    what the embedding backend does for the [i]-th chunk. *)
Fixpoint embed_all (backend : nat -> exn + vector) (i : nat)
    (chunks : list text) : M (list vector) :=
  match chunks with
  | [] => ret []
  | chunk :: rest =>
      v <- GeminiRagChatbot._get_embedding (backend i) chunk ;;
      vs <- embed_all backend (S i) rest ;;
      ret (v :: vs)
  end.

(** A code point that [str.encode()] refuses: a surrogate. *)
Definition surrogate (c : char) : bool := ((55296 <=? c) && (c <=? 57343))%N.

Definition encodable (t : text) : bool :=
  forallb (fun c => negb (surrogate c)) t.

(** The surrogates [t] starts with. *)
Fixpoint surrogate_run (t : text) : text :=
  match t with
  | [] => []
  | c :: t' => if surrogate c then c :: surrogate_run t' else []
  end.

(** Position of the first surrogate of [t], counted from [i], and the
    run of surrogates that starts there. *)
Fixpoint find_surrogates (t : text) (i : Z) : option (Z * text) :=
  match t with
  | [] => None
  | c :: t' =>
      if surrogate c then Some (i, surrogate_run t)
      else find_surrogates t' (i + 1)
  end.

Definition hex_digit (d : N) : char :=
  (if d <? 10 then 48 + d else 87 + d)%N.

Definition hex4 (c : char) : text :=
  [hex_digit (c / 4096 mod 16); hex_digit (c / 256 mod 16);
   hex_digit (c / 16 mod 16); hex_digit (c mod 16)]%N.

(** What [content.encode()] raises, if it raises: the strict UTF-8
    encoder stops at the first run of surrogates. *)
Definition encode_error (content : text) : option exn :=
  match find_surrogates content 0 with
  | None => None
  | Some (start, [c]) =>
      Some (UnicodeEncodeError
              (of_string "'utf-8' codec can't encode character '\u" ++ hex4 c
               ++ of_string "' in position " ++ str_int start
               ++ of_string ": surrogates not allowed"))
  | Some (start, run) =>
      Some (UnicodeEncodeError
              (of_string "'utf-8' codec can't encode characters in position "
               ++ str_int start ++ of_string "-"
               ++ str_int (start + len run - 1)
               ++ of_string ": surrogates not allowed"))
  end.

(** [RAGChatbot.add_document(content, metadata)] up to the call of
    [collection.add], whose arguments are returned with the document
    id. [content.encode()] raises on a surrogate; [md5] is the hex
    digest of the encoded content and [now] the ISO time stamp; [None]
    means [chunk_text] ran out of iterations. *)
Definition add_document (md5 : text -> text) (now : text) (fuel : nat)
    (backend : nat -> exn + vector) (content : text) (metadata : dict)
  : M (option (text * AddCall)) :=
  match encode_error content with
  | Some e => raise e
  | None =>
  let doc_id := md5 content in
  let metadata :=
    dict_set (dict_set metadata (of_string "timestamp") (VStr now))
             (of_string "length") (VInt (len content)) in
  match chunk_text fuel content 500 50 with
  | None => ret None
  | Some chunks =>
      let ids := chunk_ids doc_id 0 chunks in
      let metadatas :=
        chunk_metadatas metadata doc_id (Z.of_nat (List.length chunks)) 0 chunks in
      emit (Stdout (of_string "Generating embeddings for "
                      ++ str_int (Z.of_nat (List.length chunks)) ++ of_string " chunks...")) ;;;
      embeddings <- embed_all backend 0 chunks ;;
      emit (Stdout (of_string "Added document " ++ doc_id ++ of_string " with "
                      ++ str_int (Z.of_nat (List.length chunks)) ++ of_string " chunks.")) ;;;
      ret (Some (doc_id, mkAdd chunks embeddings ids metadatas))
  end
  end.

End ChatbotIngest.

(* ================================================================== *)
(** * services/embedding_service.py: embed_chunks *)
(* ================================================================== *)

Module EmbedChunks.
Import PyText Effects EmbeddingService.

(** A chunk dictionary on its way to the store; the ["embedding"] key
    is absent until [embed_chunks] sets it. *)
Record ChunkDict := mkChunkDict {
  cd_text : text;
  cd_source : text;
  cd_page_number : Z;
  cd_chunk_id : text;
  cd_embedding : option vector
}.

Definition set_embedding (c : ChunkDict) (v : vector) : ChunkDict :=
  mkChunkDict (cd_text c) (cd_source c) (cd_page_number c) (cd_chunk_id c)
              (Some v).

(** [for i, embedding in enumerate(embeddings):
       chunks[i]["embedding"] = embedding]; an index past the end of
    [chunks] raises. *)
Fixpoint assign (chunks : list ChunkDict) (embeddings : list vector)
  : M (list ChunkDict) :=
  match embeddings, chunks with
  | [], _ => ret chunks
  | _ :: _, [] => raise (BackendError (of_string "list index out of range"))
  | v :: vs, c :: cs =>
      rest <- assign cs vs ;;
      ret (set_embedding c v :: rest)
  end.

Definition embed_chunks (first again : nat -> EmbedScript)
    (chunks : list ChunkDict) : M (list ChunkDict) :=
  let texts := map cd_text chunks in
  embeddings <- create_embeddings_batch first again texts 5 ;;
  assign chunks embeddings.

End EmbedChunks.

(* ================================================================== *)
(** * utils/rate_limiter.py *)
(* ================================================================== *)

Module RateLimiter.
Import PyText.

(** Time stamps are [time.time()] readings; they are carried as
    rationals. *)
Definition timestamp := Q.

Record limiter := mkLimiter {
  requests_per_minute : Z;
  request_history : text -> option (list timestamp)
}.

(** [RateLimiter(requests_per_minute)] *)
Definition new (requests_per_minute : Z) : limiter :=
  mkLimiter requests_per_minute (fun _ => None).

(** [current_time - ts < 60] *)
Definition recent (current_time ts : timestamp) : bool :=
  negb (Qle_bool 60 (current_time - ts)).

Definition set_history (h : text -> option (list timestamp)) (ip : text)
    (l : list timestamp) : text -> option (list timestamp) :=
  fun k => if ChatbotIngest.text_eqb k ip then Some l else h k.

(** [is_rate_limited(ip)] called when the clock reads [current_time]:
    the answer and the limiter afterwards. *)
Definition is_rate_limited (l : limiter) (current_time : timestamp)
    (ip : text) : bool * limiter :=
  let known :=
    match request_history l ip with
    | Some ts => ts
    | None => []
    end in
  let kept := filter (recent current_time) known in
  if requests_per_minute l <=? Z.of_nat (List.length kept) then
    (true, mkLimiter (requests_per_minute l)
                     (set_history (request_history l) ip kept))
  else
    (false, mkLimiter (requests_per_minute l)
                      (set_history (request_history l) ip
                                   (kept ++ [current_time]))).

(** The requests of one client at the given clock readings, in order:
    the answers, and the limiter at the end. *)
Fixpoint serve (l : limiter) (ip : text) (times : list timestamp)
  : list bool * limiter :=
  match times with
  | [] => ([], l)
  | t :: rest =>
      let (limited, l') := is_rate_limited l t ip in
      let (answers, l'') := serve l' ip rest in
      (limited :: answers, l'')
  end.

End RateLimiter.

(* ================================================================== *)
(** * Predicates used to describe texts and page lists *)
(* ================================================================== *)

Module Shapes.
Import PyText Effects PdfPipeline.

(** A printable ASCII character. *)
Definition printable (c : char) : Prop := (32 <= c <= 126)%N.

(** The first character, if any, is not whitespace. *)
Definition starts_clean (s : text) : Prop :=
  forall c, hd_error s = Some c -> is_space c = false.

(** Neither end of the text is whitespace. *)
Definition trimmed (s : text) : Prop := starts_clean s /\ starts_clean (rev s).

(** The page kept under number [page_no p] is the page of that number
    in the reader (pages count from 1), with its text unchanged. *)
Definition page_of_reader (reader_pages : list (exn + text)) (p : Page)
  : Prop :=
  1 <= page_no p /\
  nth_error reader_pages (Z.to_nat (page_no p - 1)) = Some (inr (page_text p)).

(** Every document carries a metadata dictionary. *)
Definition with_metadata (docs : list GeminiRagChatbot.RetrievedDoc) : bool :=
  forallb (fun d => match GeminiRagChatbot.doc_metadata d with
                    | Some _ => true
                    | None => false
                    end) docs.


(** The clock readings of the requests that were let through, given
    the answers of [is_rate_limited] ([false] lets a request
    through). *)
Fixpoint admitted (times : list RateLimiter.timestamp) (answers : list bool)
  : list RateLimiter.timestamp :=
  match times, answers with
  | t :: times', false :: answers' => t :: admitted times' answers'
  | _ :: times', true :: answers' => admitted times' answers'
  | _, _ => []
  end.

(** The time stamps stored for a client, none if it is unknown. *)
Definition stored (l : RateLimiter.limiter) (ip : text)
  : list RateLimiter.timestamp :=
  match RateLimiter.request_history l ip with
  | Some ts => ts
  | None => []
  end.

End Shapes.

(* ================================================================== *)
(** * Facts about Python text *)
(* ================================================================== *)

Import PyText Config PdfProcessor Effects ChunkerSpec.
Import EmbeddingService PineconeService RagService GatewaySpec.
Import PdfPipeline Shapes.

Section TextFacts.

Lemma is_space_LF : is_space LF = true.
Proof. reflexivity. Qed.

Lemma sub_runs_space_no_newline (s : text) (in_run : bool) :
  ~ In LF (sub_runs is_space SPACE in_run s).
Proof.
  revert in_run. induction s as [|c s IH]; intros in_run; simpl.
  - tauto.
  - destruct (is_space c) eqn:Hc.
    + destruct in_run; simpl.
      * apply IH.
      * intros [H|H]; [discriminate H | exact (IH _ H)].
    + simpl. intros [H|H]; [|exact (IH _ H)].
      subst c. rewrite is_space_LF in Hc. discriminate.
Qed.

Lemma lstrip_incl (s : text) (c : char) : In c (lstrip s) -> In c s.
Proof.
  induction s as [|d s IH]; simpl; [tauto|].
  destruct (is_space d); [right; auto | auto].
Qed.

Lemma rstrip_incl (s : text) (c : char) : In c (rstrip s) -> In c s.
Proof.
  unfold rstrip. intros H. apply in_rev in H. apply lstrip_incl in H.
  now apply in_rev.
Qed.

Lemma strip_incl (s : text) (c : char) : In c (strip s) -> In c s.
Proof. unfold strip. intros H. apply lstrip_incl. now apply rstrip_incl. Qed.

Lemma firstn_incl {A} (n : nat) (l : list A) (x : A) :
  In x (firstn n l) -> In x l.
Proof.
  revert l; induction n; intros [|a l]; simpl; try tauto.
  intros [H|H]; auto.
Qed.

Lemma skipn_incl {A} (n : nat) (l : list A) (x : A) :
  In x (skipn n l) -> In x l.
Proof.
  revert l; induction n; intros [|a l]; simpl; try tauto.
  intros H; auto.
Qed.

Lemma slice_incl (s : text) (i j : Z) (c : char) :
  In c (slice s i j) -> In c s.
Proof.
  unfold slice. intros H. apply firstn_incl in H. now apply skipn_incl in H.
Qed.

Lemma rfind_from_absent (c : char) (s : text) (i best : Z) :
  ~ In c s -> rfind_from [c] s i best = best.
Proof.
  revert i best. induction s as [|d s IH]; intros i best H; simpl.
  - reflexivity.
  - destruct (N.eqb_spec c d) as [->|Hne].
    + exfalso. apply H. now left.
    + simpl. apply IH. intros Hin. apply H. now right.
Qed.

Lemma rfind_absent (c : char) (s : text) : ~ In c s -> rfind s [c] = -1.
Proof. intros H. unfold rfind. now apply rfind_from_absent. Qed.

Lemma clean_text_newline_free (raw : text) : ~ In LF (clean_text raw).
Proof.
  unfold clean_text, sub_delete. intros H.
  apply strip_incl in H. apply filter_In in H. destruct H as [H _].
  exact (sub_runs_space_no_newline _ _ H).
Qed.

End TextFacts.

(** C10: the output of [clean_text] contains no newline, so the
    paragraph-break search of [chunk_text], run on any window of the
    cleaned text, answers -1 (not found). *)
Theorem clean_text_no_newline :
  forall raw : text,
    ~ In LF (clean_text raw) /\
    forall start end_ : Z, rfind (slice (clean_text raw) start end_) [LF] = -1.
Proof.
  intros raw. split.
  - apply clean_text_newline_free.
  - intros start end_. apply rfind_absent. intros H.
    apply slice_incl in H. exact (clean_text_newline_free raw H).
Qed.

(* ================================================================== *)
(** * The chunking loop *)
(* ================================================================== *)

Section ChunkLoop.

Lemma chunk_loop_step (fuel : nat) (t : text) (page : Z) (src : string)
    (cs ov start : Z) (chunks : list Chunk) :
  chunk_loop (S fuel) t page src cs ov start chunks =
  if start <? len t then
    chunk_loop fuel t page src cs ov (window_end t cs start - ov)
      (chunks ++ [mkChunk (strip (slice t start (window_end t cs start)))
                          page src])
  else Some chunks.
Proof. reflexivity. Qed.

(** With a sentence break at offset 6 of a 10-character window and an
    overlap of 8, the next window starts where this one started. *)
Lemma one_sentence_no_progress : window_end one_sentence 10 0 - 8 = 0.
Proof. vm_compute. reflexivity. Qed.

Lemma one_sentence_loops (fuel : nat) (page : Z) (src : string)
    (chunks : list Chunk) :
  chunk_loop fuel one_sentence page src 10 8 0 chunks = None.
Proof.
  revert chunks. induction fuel as [|fuel IH]; intros chunks.
  - reflexivity.
  - rewrite chunk_loop_step, one_sentence_no_progress.
    change (0 <? len one_sentence) with true. cbv iota. apply IH.
Qed.

Lemma one_sentence_clean : clean_text one_sentence = one_sentence.
Proof. vm_compute. reflexivity. Qed.

End ChunkLoop.

(** C5: with chunk_size 10 and overlap 8 (so maxSize > overlap >= 0) the
    loop on "aaaaaa. bbbbbbbbbbbb" computes a next start equal to the
    current one, and [chunk_text] returns for no number of
    iterations. *)
Theorem chunk_text_can_loop_forever :
  0 <= 8 < 10 /\
  window_end (clean_text one_sentence) 10 0 - 8 = 0 /\
  forall (st : Settings) (fuel : nat) (page : Z) (src : string),
    chunk_text st fuel one_sentence page src (Some 10) (Some 8) = None.
Proof.
  split; [lia|]. split.
  - rewrite one_sentence_clean. apply one_sentence_no_progress.
  - intros st fuel page src. unfold chunk_text.
    rewrite one_sentence_clean.
    change (len one_sentence <=? or_default (Some 10) (CHUNK_SIZE st))
      with false.
    cbv iota. apply one_sentence_loops.
Qed.

(* ================================================================== *)
(** * Slices, searches and windows *)
(* ================================================================== *)

Section SliceFacts.

Lemma len_nonneg (t : text) : 0 <= len t.
Proof. unfold len. lia. Qed.

Lemma norm_index_nonneg (n i : Z) : 0 <= i -> norm_index n i = Z.min i n.
Proof.
  intros H. unfold norm_index.
  destruct (Z.ltb_spec i 0); [lia | reflexivity].
Qed.

Lemma len_slice (t : text) (a b : Z) :
  0 <= a -> 0 <= b ->
  len (slice t a b) = Z.max 0 (Z.min b (len t) - Z.min a (len t)).
Proof.
  intros Ha Hb. unfold slice.
  rewrite !norm_index_nonneg by assumption.
  unfold len. rewrite length_firstn, length_skipn. lia.
Qed.

Lemma slice_nth_error (t : text) (s e i : Z) :
  0 <= s <= i -> i < e -> i < len t ->
  nth_error (slice t s e) (Z.to_nat (i - s)) = nth_error t (Z.to_nat i).
Proof.
  intros Hs He Hn. unfold slice.
  rewrite !norm_index_nonneg by lia.
  rewrite nth_error_firstn, nth_error_skipn.
  destruct (Nat.ltb_spec (Z.to_nat (i - s))
              (Z.to_nat (Z.min e (len t) - Z.min s (len t)))) as [_|H].
  - f_equal. lia.
  - lia.
Qed.

(** A window that contains position [i] contains the character at [i]. *)
Lemma slice_mem (t : text) (s e i : Z) (c : char) :
  0 <= s <= i -> i < e ->
  nth_error t (Z.to_nat i) = Some c -> In c (slice t s e).
Proof.
  intros Hs He Hc.
  assert (Hn : i < len t).
  { unfold len. assert (nth_error t (Z.to_nat i) <> None) as H by congruence.
    apply nth_error_Some in H. lia. }
  apply (nth_error_In _ (Z.to_nat (i - s))).
  now rewrite slice_nth_error.
Qed.

Lemma lstrip_len (s : text) : len (lstrip s) <= len s.
Proof.
  unfold len. induction s as [|c s IH]; simpl; [lia|].
  destruct (is_space c); simpl; lia.
Qed.

Lemma strip_len (s : text) : len (strip s) <= len s.
Proof.
  unfold strip, rstrip.
  pose proof (lstrip_len s) as H1.
  pose proof (lstrip_len (rev (lstrip s))) as H2.
  unfold len in *. rewrite length_rev in *. lia.
Qed.

Lemma starts_with_len (sub s : text) :
  starts_with sub s = true -> len sub <= len s.
Proof.
  unfold len. revert s. induction sub as [|a sub IH]; intros [|b s]; simpl;
    try lia; try discriminate.
  intros H. apply andb_prop in H. destruct H as [_ H].
  specialize (IH _ H). lia.
Qed.

Lemma rfind_from_bounds (sub s : text) (i best : Z) :
  sub <> [] ->
  rfind_from sub s i best = best \/
  (i <= rfind_from sub s i best /\
   rfind_from sub s i best + len sub <= i + len s).
Proof.
  intros Hsub. revert i best.
  induction s as [|c s IH]; intros i best.
  - simpl. destruct sub; [contradiction | simpl; now left].
  - cbn [rfind_from].
    destruct (IH (i + 1) (if starts_with sub (c :: s) then i else best))
      as [H|[H1 H2]].
    + rewrite H. destruct (starts_with sub (c :: s)) eqn:Hsw.
      * right. apply starts_with_len in Hsw. lia.
      * now left.
    + right. unfold len in *. simpl List.length. lia.
Qed.

Lemma rfind_bounds (s sub : text) :
  sub <> [] -> rfind s sub = -1 \/ (0 <= rfind s sub /\ rfind s sub + len sub <= len s).
Proof.
  intros H. unfold rfind.
  destruct (rfind_from_bounds sub s 0 (-1) H) as [H'|H']; [now left | right; lia].
Qed.

(** On a text without newlines the window either keeps its full size or
    is shortened to just after a sentence break in its second half. *)
Lemma window_end_bounds (t : text) (cs start : Z) :
  ~ In LF t -> 0 < cs -> 0 <= start ->
  window_end t cs start = start + cs \/
  (start + cs < len t /\
   cs < 2 * (window_end t cs start - start - 2) /\
   window_end t cs start <= start + cs).
Proof.
  intros Hlf Hcs Hstart. unfold window_end.
  destruct (Z.ltb_spec (start + cs) (len t)) as [Hin|Hout]; [|now left].
  rewrite rfind_absent by (intros H; apply slice_incl in H; auto).
  unfold past_half.
  destruct (Z.ltb_spec cs (2 * -1)) as [Hbad|_]; [lia|].
  destruct (Z.ltb_spec cs (2 * rfind (slice t start (start + cs)) [DOT; SPACE]))
    as [Hhalf|_]; [|now left].
  right. split; [assumption|]. split; [lia|].
  destruct (rfind_bounds (slice t start (start + cs)) [DOT; SPACE])
    as [H|[_ H]]; [discriminate | lia |].
  rewrite len_slice in H by lia.
  change (len [DOT; SPACE]) with 2 in H. lia.
Qed.

End SliceFacts.

Section Windows.

Variables (t : text) (page : Z) (src : string) (cs ov : Z).

Lemma chunk_loop_windows (fuel : nat) (start : Z) (acc : list Chunk) :
  chunk_loop fuel t page src cs ov start acc =
  option_map
    (fun ws => acc ++ map (fun w => mkChunk (strip (window_text t w)) page src) ws)
    (chunk_windows fuel t cs ov start).
Proof.
  revert start acc. induction fuel as [|fuel IH]; intros start acc.
  - reflexivity.
  - rewrite chunk_loop_step. cbn [chunk_windows].
    destruct (start <? len t).
    + rewrite IH.
      destruct (chunk_windows fuel t cs ov (window_end t cs start - ov));
        cbn [option_map map]; [|reflexivity].
      unfold window_text at 2. cbn [fst snd].
      now rewrite <- app_assoc.
    + cbn [option_map map]. now rewrite app_nil_r.
Qed.

(** The two facts about a window on which the loop relies: it advances
    by more than the overlap and it is no longer than the chunk size. *)
Hypothesis overlap_nonneg : 0 <= ov.
Hypothesis advance : forall start, 0 <= start < len t ->
  start + ov < window_end t cs start <= start + cs.

Lemma chunk_windows_total (fuel : nat) (start : Z) :
  0 <= start -> Z.max 0 (len t - start) < Z.of_nat fuel ->
  exists ws,
    chunk_windows fuel t cs ov start = Some ws /\
    Forall (fun w => start <= fst w < len t /\
                     fst w <= snd w /\ snd w - fst w <= cs) ws /\
    (forall i, start <= i < len t -> Exists (fun w => fst w <= i < snd w) ws) /\
    consecutive_overlaps (len t) ov ws /\
    match ws with
    | [] => len t <= start
    | w :: _ => fst w = start
    end.
Proof.
  revert start. induction fuel as [|fuel IH]; intros start Hstart Hfuel.
  - lia.
  - cbn [chunk_windows].
    destruct (Z.ltb_spec start (len t)) as [Hlt|Hge].
    + pose proof (advance start (conj Hstart Hlt)) as [Hadv Hsize].
      destruct (IH (window_end t cs start - ov)) as
        (ws & Hws & Hall & Hcov & Hcons & Hhd); [lia | lia |].
      rewrite Hws. exists ((start, window_end t cs start) :: ws).
      split; [reflexivity|]. split; [|split; [|split]].
      * constructor; [cbn [fst snd]; lia|].
        eapply Forall_impl; [|exact Hall]. cbn beta. intros w Hw. lia.
      * intros i Hi.
        destruct (Z.lt_ge_cases i (window_end t cs start)) as [Hi'|Hi'].
        -- apply Exists_cons_hd. cbn [fst snd]. lia.
        -- apply Exists_cons_tl. apply Hcov. lia.
      * destruct ws as [|w2 ws']; [exact I|].
        split; [|exact Hcons].
        cbn [fst snd]. rewrite Hhd.
        inversion Hall as [|? ? Hw2 _]; subst. lia.
      * reflexivity.
    + exists []. split; [reflexivity|]. split; [constructor|].
      split; [intros i Hi; lia|]. split; [exact I | exact Hge].
Qed.

End Windows.

Section ChunkerExamples.

Lemma two_words_clean : clean_text two_words = two_words.
Proof. vm_compute. reflexivity. Qed.

(** Whatever the number of iterations allowed, if [chunk_text] returns
    on "aaaa bbbbbb" with size 5 and overlap 1, it returns the three
    stripped words. *)
Lemma two_words_chunks (st : Settings) (fuel : nat) (page : Z) (src : string)
    (chunks : list Chunk) :
  chunk_text st fuel two_words page src (Some 5) (Some 1) = Some chunks ->
  map chunk_body chunks
    = [of_string "aaaa"; of_string "bbbb"; of_string "bbb"].
Proof.
  unfold chunk_text. rewrite two_words_clean.
  change (len two_words <=? or_default (Some 5) (CHUNK_SIZE st)) with false.
  change (or_default (Some 5) (CHUNK_SIZE st)) with 5.
  change (or_default (Some 1) (CHUNK_OVERLAP st)) with 1.
  cbv iota.
  destruct fuel as [|[|[|[|fuel]]]]; try discriminate.
  rewrite !chunk_loop_step.
  change (window_end two_words 5 0) with 5.
  change (0 <? len two_words) with true. cbv iota.
  change (5 - 1) with 4.
  change (window_end two_words 5 4) with 9.
  change (4 <? len two_words) with true. cbv iota.
  change (9 - 1) with 8.
  change (window_end two_words 5 8) with 13.
  change (8 <? len two_words) with true. cbv iota.
  change (13 - 1 <? len two_words) with false. cbv iota.
  intros H. injection H as <-. reflexivity.
Qed.

End ChunkerExamples.

(** C4, as amended: when the cleaned text is longer than the chunk size
    in force and the overlap in force satisfies 0 <= overlap < size and
    overlap <= size/2 + 2, [chunk_text] returns; its chunks are the
    whitespace-stripped texts of windows of at most [size] characters,
    the windows cover every position of the cleaned text and
    consecutive windows share between 0 and [overlap] characters. *)
Theorem chunk_text_windows :
  forall (st : Settings) (raw : text) (page : Z) (src : string)
         (chunk_size chunk_overlap : option Z),
    truthy chunk_size -> truthy chunk_overlap ->
    or_default chunk_size (CHUNK_SIZE st) < len (clean_text raw) ->
    0 <= or_default chunk_overlap (CHUNK_OVERLAP st)
      < or_default chunk_size (CHUNK_SIZE st) ->
    or_default chunk_overlap (CHUNK_OVERLAP st)
      <= or_default chunk_size (CHUNK_SIZE st) / 2 + 2 ->
    chunks_as_built st raw page src chunk_size chunk_overlap
      (or_default chunk_size (CHUNK_SIZE st))
      (or_default chunk_overlap (CHUNK_OVERLAP st)).
Proof.
  intros st raw page src chunk_size chunk_overlap _ _.
  remember (or_default chunk_size (CHUNK_SIZE st)) as cs eqn:Ecs.
  remember (or_default chunk_overlap (CHUNK_OVERLAP st)) as ov eqn:Eov.
  pose proof (clean_text_newline_free raw) as Hlf.
  intros Hlong Hov Hhalf.
  assert (Hadv : forall start, 0 <= start < len (clean_text raw) ->
            start + ov < window_end (clean_text raw) cs start <= start + cs).
  { intros start Hstart.
    pose proof (Z.mul_div_le cs 2 ltac:(lia)) as Hdiv.
    destruct (window_end_bounds (clean_text raw) cs start Hlf) as [H|H]; lia. }
  destruct (chunk_windows_total (clean_text raw) cs ov (proj1 Hov) Hadv
              (S (Z.to_nat (len (clean_text raw)))) 0)
    as (ws & Hws & Hall & Hcov & Hcons & _); [lia | lia |].
  exists (S (Z.to_nat (len (clean_text raw)))),
         (map (fun w => mkChunk (strip (window_text (clean_text raw) w)) page src) ws),
         ws.
  split; [|split; [|split; [|split; [|split]]]].
  - unfold chunk_text. rewrite <- Ecs, <- Eov.
    destruct (Z.leb_spec (len (clean_text raw)) cs); [lia|].
    rewrite chunk_loop_windows, Hws. reflexivity.
  - apply Forall_map. eapply Forall_impl; [|exact Hall].
    intros [s e] Hw. cbn [fst snd chunk_body] in *.
    pose proof (strip_len (window_text (clean_text raw) (s, e))).
    unfold window_text in *. cbn [fst snd] in *.
    rewrite len_slice in * by lia. lia.
  - rewrite map_map. reflexivity.
  - eapply Forall_impl; [|exact Hall]. cbn beta. intros w Hw. lia.
  - intros i Hi. apply Hcov. lia.
  - exact Hcons.
Qed.

Lemma chunk_text_windows_witness :
  chunks_as_built default_settings two_words 1 "doc" (Some 5) (Some 1) 5 1.
Proof.
  apply (chunk_text_windows default_settings two_words 1 "doc"
           (Some 5) (Some 1)).
  - unfold truthy. discriminate.
  - unfold truthy. discriminate.
  - vm_compute. reflexivity.
  - vm_compute. split; [discriminate | reflexivity].
  - vm_compute. discriminate.
Defined.

(** C4, as stated, fails on "aaaa bbbbbb" with size 5 and overlap 1: the
    chunks returned are "aaaa", "bbbb" and "bbb", and no window of the
    text that contains the space at position 4 has one of these
    texts. *)
Lemma chunks_do_not_cover_stripped_space :
  (5 < len (clean_text two_words) /\ 0 <= 1 < 5) /\
  ~ chunks_as_specified default_settings two_words 1 "doc" 5 1.
Proof.
  split; [rewrite two_words_clean; vm_compute; intuition discriminate|].
  intros (fuel & chunks & ws & Hrun & _ & Hmap & Hall & Hcov & _).
  apply two_words_chunks in Hrun. rewrite Hrun in Hmap.
  rewrite two_words_clean in *.
  assert (H4 : 0 <= 4 < len two_words) by (vm_compute; intuition discriminate).
  specialize (Hcov 4 H4). apply Exists_exists in Hcov.
  destruct Hcov as (w & Hw & Hin).
  rewrite Forall_forall in Hall. specialize (Hall w Hw).
  assert (Hsp : In SPACE (window_text two_words w)).
  { unfold window_text. apply (slice_mem two_words (fst w) (snd w) 4);
      [lia | lia | reflexivity]. }
  assert (Hmem : In (window_text two_words w)
                    [of_string "aaaa"; of_string "bbbb"; of_string "bbb"]).
  { rewrite Hmap. now apply in_map. }
  destruct Hmem as [E|[E|[E|[]]]]; rewrite <- E in Hsp; vm_compute in Hsp;
    intuition discriminate.
Qed.

(** C6: "aaaaaa\nbbbbbbbbbbbbb" has its paragraph break at offset 6, 60%
    of a chunk size of 10. On the text as given the search would end the
    window right after the break (at 7), but [chunk_text] searches the
    cleaned text, where the break has become a space, and the first
    chunk is cut at the full 10 characters. *)
Theorem paragraph_break_is_not_used :
  nth_error two_paragraphs 6 = Some LF /\
  window_end two_paragraphs 10 0 = 7 /\
  window_end (clean_text two_paragraphs) 10 0 = 10 /\
  chunk_text default_settings 4 two_paragraphs 1 "doc" (Some 10) (Some 2)
  = Some [mkChunk (of_string "aaaaaa bbb") 1 "doc";
          mkChunk (of_string "bbbbbbbbbb") 1 "doc";
          mkChunk (of_string "bbbb") 1 "doc"].
Proof. vm_compute. repeat split. Qed.

(* ================================================================== *)
(** * The computation monad *)
(* ================================================================== *)

Section MonadFacts.

Context {A B : Type}.

Lemma outcome_bind (m : M A) (f : A -> M B) :
  outcome (bind m f) =
  match outcome m with
  | inl e => inl e
  | inr a => outcome (f a)
  end.
Proof.
  destruct m as [tr [e|a]]; cbn; [reflexivity|].
  destruct (f a); reflexivity.
Qed.

Lemma trace_bind (m : M A) (f : A -> M B) :
  trace (bind m f) =
  trace m ++ match outcome m with
             | inl _ => []
             | inr a => trace (f a)
             end.
Proof.
  destruct m as [tr [e|a]]; cbn; [now rewrite app_nil_r|].
  destruct (f a); reflexivity.
Qed.

Lemma outcome_try_except (m : M A) (h : exn -> M A) :
  outcome (try_except m h) =
  match outcome m with
  | inl e => outcome (h e)
  | inr a => inr a
  end.
Proof.
  destruct m as [tr [e|a]]; cbn; [|reflexivity].
  destruct (h e); reflexivity.
Qed.

Lemma trace_try_except (m : M A) (h : exn -> M A) :
  trace (try_except m h) =
  trace m ++ match outcome m with
             | inl e => trace (h e)
             | inr _ => []
             end.
Proof.
  destruct m as [tr [e|a]]; cbn; [|now rewrite app_nil_r].
  destruct (h e); reflexivity.
Qed.

End MonadFacts.

(* ================================================================== *)
(** * Batch embedding *)
(* ================================================================== *)

Section BatchEmbedding.

Variables first again : nat -> EmbedScript.

Lemma concat_groups_of {X} (size fuel : nat) (l : list X) :
  (0 < size)%nat -> (List.length l <= fuel)%nat ->
  List.concat (groups_of fuel size l) = l.
Proof.
  intros Hsize. revert l. induction fuel as [|fuel IH]; intros l Hfuel.
  - destruct l; [reflexivity | simpl in Hfuel; lia].
  - destruct l as [|x l]; [reflexivity|].
    cbn [groups_of List.concat]. rewrite IH.
    + apply firstn_skipn.
    + rewrite length_skipn. cbn [List.length] in *. lia.
Qed.

Lemma concat_range_groups {X} (size : nat) (l : list X) :
  (0 < size)%nat -> List.concat (range_groups size l) = l.
Proof. intros H. unfold range_groups. now apply concat_groups_of. Qed.

Lemma settled_from_app (p : nat) (a b : list text) :
  settled_from first again p (a ++ b) =
  settled_from first again p a
  ++ settled_from first again (p + List.length a) b.
Proof.
  revert p. induction a as [|t a IH]; intros p; cbn [settled_from app List.length].
  - now rewrite Nat.add_0_r.
  - rewrite IH. do 3 f_equal. lia.
Qed.

Lemma settled_from_length (p : nat) (texts : list text) :
  List.length (settled_from first again p texts) = List.length texts.
Proof.
  revert p. induction texts as [|t texts IH]; intros p; simpl; [|rewrite IH];
    reflexivity.
Qed.

Lemma settled_from_nth (p k : nat) (texts : list text) (t : text) :
  nth_error texts k = Some t ->
  nth_error (settled_from first again p texts) k
  = Some (settled first again (p + k) t).
Proof.
  revert p k. induction texts as [|t' texts IH]; intros p [|k] H;
    try discriminate.
  - injection H as ->. simpl. now rewrite Nat.add_0_r.
  - simpl in *. rewrite (IH (S p) k H). do 2 f_equal. lia.
Qed.

(** The result loop appends to the list, for each text of the group,
    the vector the contract names; it never raises. *)
Lemma collect_group_outcome (i j : nat) (batch : list text)
    (acc : list vector) :
  outcome (collect_group again i j batch
             (map outcome (group_tasks first (i + j) batch)) acc)
  = inr (acc ++ settled_from first again (i + j) batch).
Proof.
  revert j acc. induction batch as [|t batch IH]; intros j acc.
  - cbn. now rewrite app_nil_r.
  - cbn [group_tasks map collect_group settled_from].
    rewrite outcome_bind.
    replace (S (i + j)) with (i + S j)%nat by lia.
    unfold settled.
    destruct (outcome (create_embedding (first (i + j)%nat) t)) as [e|v].
    + rewrite outcome_bind. cbn [emit outcome snd].
      rewrite outcome_try_except, outcome_bind.
      destruct (outcome (create_embedding (again (i + j)%nat) t)) as [e'|v'].
      * rewrite outcome_bind. cbn [emit outcome snd ret].
        rewrite IH, <- app_assoc. reflexivity.
      * cbn [ret outcome snd]. rewrite IH, <- app_assoc. reflexivity.
    + cbn [ret outcome snd]. rewrite IH, <- app_assoc. reflexivity.
Qed.

Lemma embed_groups_outcome (i : nat) (groups : list (list text))
    (acc : list vector) :
  outcome (embed_groups first again i groups acc)
  = inr (acc ++ settled_from first again i (List.concat groups)).
Proof.
  revert i acc. induction groups as [|batch groups IH]; intros i acc.
  - cbn. now rewrite app_nil_r.
  - cbn [embed_groups List.concat]. rewrite outcome_bind.
    cbn [gather outcome snd].
    rewrite outcome_bind.
    pose proof (collect_group_outcome i 0 batch acc) as H.
    rewrite Nat.add_0_r in H. rewrite H.
    rewrite IH, settled_from_app, app_assoc. reflexivity.
Qed.

End BatchEmbedding.



(* ================================================================== *)
(** * Single embeddings and the retry policy *)
(* ================================================================== *)

Section SingleEmbedding.

Lemma create_embedding_attempt_trace (backend : exn + vector) (t : text) :
  trace (create_embedding_attempt backend t) = [EmbedCall t].
Proof.
  unfold create_embedding_attempt. destruct backend as [e|v]; cbn.
  - destruct (contains _ _); reflexivity.
  - reflexivity.
Qed.

Lemma create_embedding_first_event (script : EmbedScript) (t : text) :
  exists rest, trace (create_embedding script t) = EmbedCall t :: rest.
Proof.
  unfold create_embedding, retry3. cbn [retrying].
  rewrite trace_try_except, create_embedding_attempt_trace.
  eexists. reflexivity.
Qed.

(** The command-line chatbot guards the backend call. *)
Lemma _get_embedding_blank (backend : exn + vector) (t : text) :
  strip t = [] ->
  embed_calls (trace (GeminiRagChatbot._get_embedding backend t)) = [] /\
  outcome (GeminiRagChatbot._get_embedding backend t) = inr (repeat 0%Q 768).
Proof.
  intros H. unfold GeminiRagChatbot._get_embedding. rewrite H.
  split; reflexivity.
Qed.

End SingleEmbedding.

(** C3: [create_embedding] has no guard for blank input. Whatever the
    text, its first action is a backend call with that text; on the
    empty string and on three spaces, with a backend that answers [1.0],
    it calls the backend and returns [1.0], not the zero vector. *)
Theorem create_embedding_sends_blank_text :
  (forall (script : EmbedScript) (t : text),
     exists rest, trace (create_embedding script t) = EmbedCall t :: rest) /\
  create_embedding (always [1%Q]) [] = ([EmbedCall []], inr [1%Q]) /\
  create_embedding (always [1%Q]) (of_string "   ")
  = ([EmbedCall (of_string "   ")], inr [1%Q]).
Proof.
  split; [exact create_embedding_first_event|].
  split; reflexivity.
Qed.

(** C8: a rejected credential is retried like any other failure. With a
    backend that answers "API key not valid" every time,
    [create_embedding] calls it three times, with tenacity's exponential
    waits in between, and ends with tenacity's [RetryError] around the
    invalid-key [ValueError]; a transient failure gives the same
    sequence of calls and waits. *)
Theorem invalid_key_is_retried :
  forall t : text,
    create_embedding invalid_key t
    = ([EmbedCall t; Sleep (wait_exponential 1 1 10 1);
        EmbedCall t; Sleep (wait_exponential 1 1 10 2);
        EmbedCall t],
       inl (RetryError (ValueError (of_string
         "Invalid Google API key. Please check your .env file.")))) /\
    trace (create_embedding unreachable t)
    = trace (create_embedding invalid_key t).
Proof. intros t. split; reflexivity. Qed.

(* ================================================================== *)
(** * The query pipeline *)
(* ================================================================== *)

Section QueryPipeline.

Lemma insert_desc_In (c d : ContextChunk) (l : list ContextChunk) :
  In d (insert_desc c l) <-> d = c \/ In d l.
Proof.
  induction l as [|x l IH]; simpl.
  - intuition congruence.
  - destruct (Qle_bool (score_key x) (score_key c)); simpl.
    + intuition congruence.
    + rewrite IH. intuition congruence.
Qed.

Lemma sorted_desc_In (d : ContextChunk) (l : list ContextChunk) :
  In d (sorted_desc l) <-> In d l.
Proof.
  unfold sorted_desc. induction l as [|c l IH]; simpl; [tauto|].
  rewrite insert_desc_In, IH. intuition congruence.
Qed.

Lemma insert_desc_length (c : ContextChunk) (l : list ContextChunk) :
  List.length (insert_desc c l) = S (List.length l).
Proof.
  induction l as [|x l IH]; simpl; [reflexivity|].
  destruct (Qle_bool _ _); simpl; [|rewrite IH]; reflexivity.
Qed.

Lemma sorted_desc_length (l : list ContextChunk) :
  List.length (sorted_desc l) = List.length l.
Proof.
  unfold sorted_desc. induction l as [|c l IH]; simpl; [reflexivity|].
  now rewrite insert_desc_length, IH.
Qed.

Lemma render_chunks_acc (i : nat) (chunks : list ContextChunk) (acc : text) :
  render_chunks i chunks acc = acc ++ render_chunks i chunks [].
Proof.
  revert i acc. induction chunks as [|c chunks IH]; intros i acc.
  - simpl. now rewrite app_nil_r.
  - cbn [render_chunks]. rewrite IH. symmetry. rewrite IH. symmetry.
    rewrite app_nil_l, <- !app_assoc. reflexivity.
Qed.

(** Every chunk handed to [format_context] has its text in the rendered
    context, however many chunks there are. *)
Lemma format_context_renders_all (chunks : list ContextChunk)
    (c : ContextChunk) :
  In c chunks ->
  exists before after,
    format_context chunks = before ++ get (cc_text c) [] ++ after.
Proof.
  intros H. apply sorted_desc_In in H. unfold format_context.
  generalize 0%nat as i. revert H.
  generalize (sorted_desc chunks) as l.
  induction l as [|d l IH]; intros H i; [contradiction|].
  cbn [render_chunks]. rewrite render_chunks_acc.
  destruct H as [->|H].
  - eexists. eexists. rewrite <- app_assoc. reflexivity.
  - destruct (IH H (S i)) as (before & after & E). rewrite E.
    eexists. exists after. rewrite app_assoc. reflexivity.
Qed.

(** The command-line chatbot answers without the model when nothing
    was retrieved. *)
Lemma chat_without_documents (embed : exn + vector) (llm : exn + text)
    (query : text) :
  generate_calls
    (trace (GeminiRagChatbot.chat embed (inr []) llm query)) = [] /\
  outcome (GeminiRagChatbot.chat embed (inr []) llm query)
  = inr (GeminiRagChatbot.mkChat query GeminiRagChatbot.no_information []).
Proof.
  unfold GeminiRagChatbot.chat, GeminiRagChatbot.retrieve_documents,
    GeminiRagChatbot._get_embedding.
  destruct (strip query); [cbn; split; reflexivity|].
  destruct embed as [e|v]; cbn; split; reflexivity.
Qed.

(** The command-line chatbot renders three documents at most. *)
Lemma chatbot_renders_three :
  exists prompt,
    generate_calls
      (trace (GeminiRagChatbot.generate_response (inr (of_string "ok"))
                (of_string "q") four_docs)) = [prompt] /\
    contains (of_string "Document 3 (Source: N/A): third") prompt = true /\
    contains (of_string "fourth") prompt = false.
Proof. eexists. split; [reflexivity|]. split; vm_compute; reflexivity. Qed.

End QueryPipeline.

(** C1: [process_query] has no branch for an empty match set. When the
    embedding and the search succeed and the search finds nothing, the
    generation backend is called with a prompt whose context is empty,
    and the answer returned is whatever the model said. *)
Theorem process_query_generates_on_empty_retrieval :
  forall (st : Settings) (v : vector) (query namespace answer : text),
    process_query st (always v) (fun _ => inr (Some []))
                  (fun _ => inr answer) query namespace
    = ([EmbedCall query;
        QueryCall v (or_default (Some (TOP_K_RESULTS st)) (TOP_K_RESULTS st))
                  namespace;
        GenerateCall (build_prompt (format_context []) query)],
       inr (mkResult answer [])).
Proof. intros. reflexivity. Qed.

(** C7: [format_context] renders every match it is given. With four
    matches retrieved, the prompt sent to the model contains the block
    of the fourth, lowest-scoring one, and all four are returned as
    sources. *)
Theorem format_context_renders_fourth_match :
  exists prompt,
    generate_calls
      (trace (process_query default_settings (always [1%Q])
                (fun _ => inr (Some four_matches))
                (fun _ => inr (of_string "ok"))
                (of_string "q") (of_string "default"))) = [prompt] /\
    contains (of_string "CONTEXT CHUNK 4 [Source: manual.pdf, Page: 4]:"
              ++ [LF] ++ of_string "fourth") prompt = true /\
    outcome (process_query default_settings (always [1%Q])
               (fun _ => inr (Some four_matches))
               (fun _ => inr (of_string "ok"))
               (of_string "q") (of_string "default"))
    = inr (mkResult (of_string "ok") (map result_of_match four_matches)).
Proof. eexists. split; [reflexivity|]. split; vm_compute; reflexivity. Qed.

(* ================================================================== *)
(** * Storing embeddings *)
(* ================================================================== *)

Section Upsert.

Lemma upsert_calls_app (a b : list event) :
  upsert_calls (a ++ b) = upsert_calls a ++ upsert_calls b.
Proof. apply flat_map_app. Qed.

Lemma sleeps_app (a b : list event) : sleeps (a ++ b) = sleeps a ++ sleeps b.
Proof. apply flat_map_app. Qed.

Lemma groups_of_sizes {X} (size fuel : nat) (l : list X) :
  (0 < size)%nat ->
  Forall (fun b => (1 <= List.length b <= size)%nat) (groups_of fuel size l).
Proof.
  intros Hsize. revert l. induction fuel as [|fuel IH]; intros l.
  - constructor.
  - destruct l as [|x l]; [constructor|].
    cbn [groups_of]. constructor; [|apply IH].
    rewrite length_firstn. cbn [List.length]. lia.
Qed.


(** One pass of the loop sends the batches [pass_over] names, never
    sleeps, and ends as [pass_over] says. *)
Lemma upsert_batches_pass (backend : UpsertRun) (namespace : text)
    (batches : list (list VectorEntry)) :
  forall (k : nat) (count : Z),
    upsert_calls (trace (upsert_batches backend namespace k batches count))
      = fst (pass_over backend k batches) /\
    sleeps (trace (upsert_batches backend namespace k batches count)) = [] /\
    match snd (pass_over backend k batches) with
    | Some e => outcome (upsert_batches backend namespace k batches count) = inl e
    | None =>
        exists n, outcome (upsert_batches backend namespace k batches count) = inr n
    end.
Proof.
  induction batches as [|batch batches IH]; intros k count.
  - cbn. repeat split. now exists count.
  - cbn [upsert_batches pass_over]. destruct (backend k) as [e|response].
    + unfold storage_error. cbn.
      destruct (contains _ _ || contains _ _); cbn; repeat split.
    + cbn.
      destruct (IH (S k) (count + match response with Some n => n | None => 0 end))
        as (Hcalls & Hsleeps & Hout).
      destruct (pass_over backend (S k) batches) as [sent error].
      destruct (upsert_batches backend namespace (S k) batches _) as [tr r].
      cbn in *. rewrite Hcalls. repeat split; assumption.
Qed.


Lemma pass_over_all_ok (backend : UpsertRun) :
  (forall k, exists r, backend k = inr r) ->
  forall (batches : list (list VectorEntry)) (k : nat),
    pass_over backend k batches = (batches, None).
Proof.
  intros Hok. induction batches as [|batch batches IH]; intros k;
    [reflexivity|].
  cbn [pass_over]. destruct (Hok k) as [r ->]. now rewrite (IH (S k)).
Qed.

Lemma get_index_quiet (index_name : text) (cached : option text)
    (client : ClientAnswers) :
  upsert_calls (trace (get_index index_name cached client)) = [] /\
  sleeps (trace (get_index index_name cached client)) = [].
Proof.
  unfold get_index. destruct cached; [split; reflexivity|].
  destruct (list_indexes client) as [e|names]; [split; reflexivity|].
  cbn. destruct (existsb (same_name index_name) names);
    destruct (create_index client), (connect client); split; reflexivity.
Qed.

(** One attempt of [store_embeddings] does what [upsert_attempt]
    says. *)
Lemma store_embeddings_attempt (index_name : text) (cached : option text)
    (client : nat -> ClientAnswers) (script : nat -> UpsertRun)
    (chunks : list EmbeddedChunk) (namespace : text) (a : nat) :
  upsert_calls (trace (store_embeddings_body
      (get_index index_name (index_state index_name cached client (pred a))
                 (client a))
      (script a) chunks namespace))
    = fst (upsert_attempt index_name cached client script chunks a) /\
  sleeps (trace (store_embeddings_body
      (get_index index_name (index_state index_name cached client (pred a))
                 (client a))
      (script a) chunks namespace)) = [] /\
  match snd (upsert_attempt index_name cached client script chunks a) with
  | Some e =>
      outcome (store_embeddings_body
        (get_index index_name (index_state index_name cached client (pred a))
                   (client a))
        (script a) chunks namespace) = inl e
  | None =>
      exists n,
        outcome (store_embeddings_body
          (get_index index_name (index_state index_name cached client (pred a))
                     (client a))
          (script a) chunks namespace) = inr n
  end.
Proof.
  unfold store_embeddings_body, upsert_attempt.
  rewrite trace_bind, outcome_bind, upsert_calls_app, sleeps_app.
  destruct (get_index_quiet index_name
              (index_state index_name cached client (pred a)) (client a))
    as [Hc Hs].
  rewrite Hc, Hs.
  destruct (outcome (get_index index_name
              (index_state index_name cached client (pred a)) (client a)))
    as [e|index].
  - cbn. repeat split.
  - cbn [app].
    exact (upsert_batches_pass (script a) namespace
             (range_groups batch_size (prepare_vectors chunks)) 0 0).
Qed.

End Upsert.



(* ================================================================== *)
(** * Shape of cleaned text and of chunks *)
(* ================================================================== *)

Section CleanShape.

Lemma lstrip_starts_clean (s : text) : starts_clean (lstrip s).
Proof.
  unfold starts_clean. induction s as [|d s IH]; intros c; simpl.
  - discriminate.
  - destruct (is_space d) eqn:Hd; [apply IH|].
    simpl. intros H. injection H as <-. exact Hd.
Qed.

Lemma lstrip_app_nonspace (l r : text) (c : char) :
  is_space c = false -> lstrip (l ++ c :: r) = lstrip l ++ c :: r.
Proof.
  intros Hc. induction l as [|d l IH]; simpl.
  - now rewrite Hc.
  - destruct (is_space d); [exact IH | reflexivity].
Qed.

Lemma rstrip_cons_nonspace (c : char) (s : text) :
  is_space c = false -> rstrip (c :: s) = c :: rstrip s.
Proof.
  intros Hc. unfold rstrip. simpl rev.
  rewrite lstrip_app_nonspace by assumption.
  rewrite rev_app_distr. reflexivity.
Qed.

Lemma strip_trimmed (s : text) : trimmed (strip s).
Proof.
  unfold trimmed, strip. split.
  - pose proof (lstrip_starts_clean s) as H.
    destruct (lstrip s) as [|h u]; [intros c; discriminate|].
    assert (Hh : is_space h = false) by (apply H; reflexivity).
    rewrite rstrip_cons_nonspace by assumption.
    intros c E. injection E as <-. exact Hh.
  - unfold rstrip. rewrite rev_involutive. apply lstrip_starts_clean.
Qed.

Lemma clean_text_chars (raw : text) : Forall printable (clean_text raw).
Proof.
  apply Forall_forall. intros c Hc.
  assert (Hlf : c <> LF).
  { intros ->. exact (clean_text_newline_free raw Hc). }
  unfold clean_text, sub_delete in Hc.
  apply strip_incl in Hc. apply filter_In in Hc. destruct Hc as [_ Hc].
  unfold non_printable in Hc. rewrite negb_involutive in Hc.
  apply orb_prop in Hc. destruct Hc as [Hc|Hc].
  - apply andb_prop in Hc. destruct Hc as [H1 H2].
    apply N.leb_le in H1, H2. split; assumption.
  - apply N.eqb_eq in Hc. contradiction.
Qed.

Lemma sub_runs_Forall (P : char -> Prop) (p : char -> bool) (r : char)
    (in_run : bool) (s : text) :
  P r -> Forall P s -> Forall P (sub_runs p r in_run s).
Proof.
  intros Hr H. revert in_run. induction H as [|c s Hc _ IH]; intros in_run.
  - constructor.
  - simpl. destruct (p c); [destruct in_run|]; auto.
Qed.

Lemma sub_runs_blank (s : text) :
  Forall (fun c => is_space c = true) s ->
  sub_runs is_space SPACE true s = [] /\
  (sub_runs is_space SPACE false s = [] \/
   sub_runs is_space SPACE false s = [SPACE]).
Proof.
  intros H. induction H as [|c s Hc _ [IH _]]; simpl.
  - split; [reflexivity | now left].
  - rewrite Hc, IH. split; [reflexivity | now right].
Qed.

Lemma clean_text_blank (raw : text) :
  Forall (fun c => is_space c = true) raw -> clean_text raw = [].
Proof.
  intros H. unfold clean_text.
  assert (H' : Forall (fun c => is_space c = true)
                 (sub_runs is_newline LF false raw)).
  { apply sub_runs_Forall; [reflexivity | assumption]. }
  destruct (sub_runs_blank _ H') as [_ [E|E]]; rewrite E; reflexivity.
Qed.

End CleanShape.

(** X1: the output of [clean_text] contains only printable ASCII
    characters (codes 32 to 126), and neither its first nor its last
    character is whitespace. *)
Theorem clean_text_printable_trimmed :
  forall raw : text,
    Forall printable (clean_text raw) /\ trimmed (clean_text raw).
Proof.
  intros raw. split.
  - apply clean_text_chars.
  - unfold clean_text. apply strip_trimmed.
Qed.

(** X2: a page made only of whitespace (the empty text included) is
    cleaned to the empty text, and [chunk_text] then returns exactly one
    chunk whose text is empty, whatever the overlap and the number of
    iterations allowed, as long as the chunk size in force is not
    negative. *)
Theorem chunk_text_blank_page :
  forall (st : Settings) (fuel : nat) (raw : text) (page : Z) (src : string)
         (chunk_size chunk_overlap : option Z),
    Forall (fun c => is_space c = true) raw ->
    0 <= or_default chunk_size (CHUNK_SIZE st) ->
    clean_text raw = [] /\
    chunk_text st fuel raw page src chunk_size chunk_overlap
    = Some [mkChunk [] page src].
Proof.
  intros st fuel raw page src chunk_size chunk_overlap Hblank Hsize.
  pose proof (clean_text_blank raw Hblank) as E.
  split; [exact E|].
  unfold chunk_text. rewrite E.
  change (len []) with 0.
  destruct (Z.leb_spec 0 (or_default chunk_size (CHUNK_SIZE st))); [reflexivity | lia].
Qed.

Lemma chunk_text_blank_page_witness :
  clean_text (of_string "   ") = [] /\
  chunk_text default_settings 0 (of_string "   ") 3 "doc" None (Some 7)
  = Some [mkChunk [] 3 "doc"].
Proof.
  apply (chunk_text_blank_page default_settings 0 (of_string "   ") 3 "doc"
           None (Some 7)).
  - repeat constructor.
  - vm_compute. discriminate.
Defined.

(** X3: whenever [chunk_text] returns, every chunk carries the page
    number and the source it was given, and its text is made of
    printable ASCII characters with no whitespace at either end. *)
Theorem chunk_text_chunks_shape :
  forall (st : Settings) (fuel : nat) (raw : text) (page : Z) (src : string)
         (chunk_size chunk_overlap : option Z) (chunks : list Chunk),
    chunk_text st fuel raw page src chunk_size chunk_overlap = Some chunks ->
    Forall (fun c => page_number c = page /\ source c = src /\
                     Forall printable (chunk_body c) /\
                     trimmed (chunk_body c)) chunks.
Proof.
  intros st fuel raw page src chunk_size chunk_overlap chunks.
  unfold chunk_text.
  destruct (len (clean_text raw) <=? or_default chunk_size (CHUNK_SIZE st)).
  - intros H. injection H as <-. constructor; [|constructor].
    cbn [page_number source chunk_body].
    repeat split; try apply clean_text_chars.
    + unfold clean_text. apply strip_trimmed.
    + unfold clean_text. apply strip_trimmed.
  - rewrite chunk_loop_windows.
    destruct (chunk_windows fuel (clean_text raw) _ _ 0) as [ws|];
      [|discriminate].
    cbn [option_map app]. intros H. injection H as <-.
    apply Forall_map. apply Forall_forall. intros w _.
    cbn [page_number source chunk_body].
    split; [reflexivity|]. split; [reflexivity|].
    split; [|apply strip_trimmed].
    apply Forall_forall. intros c Hc.
    apply strip_incl in Hc. unfold window_text in Hc. apply slice_incl in Hc.
    pose proof (clean_text_chars raw) as Hall.
    rewrite Forall_forall in Hall. now apply Hall.
Qed.

Lemma chunk_text_chunks_shape_witness :
  Forall (fun c => page_number c = 1 /\ source c = "doc"%string /\
                   Forall printable (chunk_body c) /\
                   trimmed (chunk_body c))
    [mkChunk (of_string "aaaaaa bbb") 1 "doc";
     mkChunk (of_string "bbbbbbbbbb") 1 "doc";
     mkChunk (of_string "bbbb") 1 "doc"].
Proof.
  apply (chunk_text_chunks_shape default_settings 4 two_paragraphs 1 "doc"
           (Some 10) (Some 2)).
  vm_compute. reflexivity.
Defined.

(* ================================================================== *)
(** * Reading and chunking a PDF *)
(* ================================================================== *)

Section PdfFacts.

Lemma extract_pages_spec (filename : string) (reader_pages : list (exn + text)) :
  forall (i : nat) (acc pages : list Page),
    extract_pages i filename reader_pages acc = inr pages ->
    exists new,
      pages = acc ++ new /\
      (List.length new <= List.length reader_pages)%nat /\
      Forall (fun p =>
                Z.of_nat i < page_no p <= Z.of_nat i + Z.of_nat (List.length reader_pages) /\
                nth_error reader_pages (Z.to_nat (page_no p - 1 - Z.of_nat i))
                  = Some (inr (page_text p)) /\
                has_text (page_text p) = true /\
                page_source p = filename) new /\
      StronglySorted Z.lt (map page_no new).
Proof.
  induction reader_pages as [|[e|t] rest IH]; intros i acc pages H.
  - injection H as <-. exists []. rewrite app_nil_r.
    repeat split; constructor.
  - discriminate.
  - cbn [extract_pages] in H. apply IH in H.
    destruct H as (new & E & Hlen & Hall & Hsorted).
    assert (Hshift : Forall (fun p =>
              Z.of_nat i < page_no p
                <= Z.of_nat i + Z.of_nat (List.length (inr t :: rest)) /\
              nth_error (inr t :: rest) (Z.to_nat (page_no p - 1 - Z.of_nat i))
                = Some (inr (page_text p)) /\
              has_text (page_text p) = true /\
              page_source p = filename) new).
    { eapply Forall_impl; [|exact Hall]. cbn beta.
      intros p (Hb & Hn & Ht & Hs). cbn [List.length].
      split; [lia|]. split; [|split; assumption].
      replace (Z.to_nat (page_no p - 1 - Z.of_nat i))
        with (S (Z.to_nat (page_no p - 1 - Z.of_nat (S i)))) by lia.
      exact Hn. }
    destruct (has_text t) eqn:Ht.
    + exists (mkPage t (Z.of_nat i + 1) filename :: new).
      rewrite <- app_assoc in E. cbn [app] in E.
      split; [exact E|]. split; [cbn [List.length]; lia|]. split.
      * constructor; [|exact Hshift].
        cbn [page_no page_text page_source List.length].
        split; [lia|]. split; [|split; [exact Ht | reflexivity]].
        replace (Z.to_nat (Z.of_nat i + 1 - 1 - Z.of_nat i)) with 0%nat by lia.
        reflexivity.
      * cbn [map page_no]. constructor; [exact Hsorted|].
        apply Forall_map. eapply Forall_impl; [|exact Hall]. cbn beta.
        intros p (Hb & _). lia.
    + exists new. split; [exact E|]. split; [cbn [List.length]; lia|].
      split; assumption.
Qed.

Lemma sub_runs_len (p : char -> bool) (r : char) (in_run : bool) (s : text) :
  len (sub_runs p r in_run s) <= len s.
Proof.
  unfold len. revert in_run.
  induction s as [|c s IH]; intros in_run; cbn [sub_runs List.length].
  - lia.
  - pose proof (IH true). pose proof (IH false).
    destruct (p c); [destruct in_run|]; cbn [List.length]; lia.
Qed.

Lemma sub_delete_len (p : char -> bool) (s : text) :
  len (sub_delete p s) <= len s.
Proof.
  unfold len, sub_delete. induction s as [|c s IH]; cbn [filter List.length]; [lia|].
  destruct (negb (p c)); cbn [List.length]; lia.
Qed.

Lemma clean_text_len (raw : text) : len (clean_text raw) <= len raw.
Proof.
  unfold clean_text.
  pose proof (strip_len (sub_delete non_printable
    (sub_runs is_space SPACE false (sub_runs is_newline LF false raw)))).
  pose proof (sub_delete_len non_printable
    (sub_runs is_space SPACE false (sub_runs is_newline LF false raw))).
  pose proof (sub_runs_len is_space SPACE false
    (sub_runs is_newline LF false raw)).
  pose proof (sub_runs_len is_newline LF false raw). lia.
Qed.

Variable st : Settings.
Hypothesis overlap_ok : 0 <= CHUNK_OVERLAP st < CHUNK_SIZE st.
Hypothesis overlap_half : CHUNK_OVERLAP st <= CHUNK_SIZE st / 2 + 2.

(** With the settings in force and enough iterations, [chunk_text]
    returns at least one chunk, each of at most [CHUNK_SIZE]
    characters. *)
Lemma chunk_text_returns (fuel : nat) (raw : text) (page : Z) (src : string) :
  len (clean_text raw) < Z.of_nat fuel ->
  exists chunks,
    chunk_text st fuel raw page src None None = Some chunks /\
    chunks <> [] /\
    Forall (fun c => len (chunk_body c) <= CHUNK_SIZE st /\
                     page_number c = page /\ source c = src) chunks.
Proof.
  intros Hfuel. unfold chunk_text. cbn [or_default].
  destruct (Z.leb_spec (len (clean_text raw)) (CHUNK_SIZE st)) as [Hshort|Hlong].
  - eexists. split; [reflexivity|]. split; [discriminate|].
    constructor; [|constructor]. cbn. repeat split. exact Hshort.
  - pose proof (clean_text_newline_free raw) as Hlf.
    assert (Hadv : forall start, 0 <= start < len (clean_text raw) ->
              start + CHUNK_OVERLAP st
                < window_end (clean_text raw) (CHUNK_SIZE st) start
                <= start + CHUNK_SIZE st).
    { intros start Hstart.
      pose proof (Z.mul_div_le (CHUNK_SIZE st) 2 ltac:(lia)) as Hdiv.
      destruct (window_end_bounds (clean_text raw) (CHUNK_SIZE st) start Hlf)
        as [H|H]; lia. }
    destruct (chunk_windows_total (clean_text raw) (CHUNK_SIZE st)
                (CHUNK_OVERLAP st) (proj1 overlap_ok) Hadv fuel 0)
      as (ws & Hws & Hall & _ & _ & Hhd); [lia | lia |].
    rewrite chunk_loop_windows, Hws. cbn [option_map app].
    eexists. split; [reflexivity|]. split.
    + destruct ws; [lia | discriminate].
    + apply Forall_map. eapply Forall_impl; [|exact Hall].
      intros [s e] Hw. cbn [fst snd chunk_body page_number source] in *.
      pose proof (strip_len (window_text (clean_text raw) (s, e))).
      unfold window_text in *. cbn [fst snd] in *.
      rewrite len_slice in * by lia. repeat split. lia.
Qed.

Lemma chunk_pages_returns (fuel : nat) (pages0 : list Page) :
  forall (pages : list Page) (acc : list Chunk),
    (forall p, In p pages -> In p pages0) ->
    Forall (fun p => len (page_text p) < Z.of_nat fuel) pages ->
    Forall (fun c => len (chunk_body c) <= CHUNK_SIZE st /\
                     Exists (fun p => page_number c = page_no p /\
                                      source c = page_source p) pages0) acc ->
    exists all_chunks,
      chunk_pages st fuel pages acc = Some all_chunks /\
      (List.length acc + List.length pages <= List.length all_chunks)%nat /\
      Forall (fun c => len (chunk_body c) <= CHUNK_SIZE st /\
                       Exists (fun p => page_number c = page_no p /\
                                        source c = page_source p) pages0)
             all_chunks.
Proof.
  induction pages as [|p pages IH]; intros acc Hsub Hfuel Hacc.
  - exists acc. split; [reflexivity|]. split; [cbn; lia | exact Hacc].
  - cbn [chunk_pages].
    inversion Hfuel as [|? ? Hp Hrest]; subst.
    destruct (chunk_text_returns fuel (page_text p) (page_no p) (page_source p))
      as (chunks & E & Hne & Hall).
    { pose proof (clean_text_len (page_text p)). lia. }
    rewrite E.
    destruct (IH (acc ++ chunks)) as (all_chunks & Eall & Hlen & Hq).
    + intros q Hq. apply Hsub. now right.
    + exact Hrest.
    + apply Forall_app. split; [exact Hacc|].
      eapply Forall_impl; [|exact Hall]. cbn beta.
      intros c (Hc & Hpage & Hsrc). split; [exact Hc|].
      apply Exists_exists. exists p. split; [apply Hsub; now left|].
      split; assumption.
    + exists all_chunks. split; [exact Eall|]. split; [|exact Hq].
      rewrite length_app in Hlen. cbn [List.length].
      destruct chunks; [contradiction | cbn [List.length] in Hlen; lia].
Qed.

Lemma extract_pages_readable (filename : string)
    (reader_pages : list (exn + text)) :
  Forall (fun rp => exists t, rp = inr t) reader_pages ->
  forall (i : nat) (acc : list Page),
    exists pages, extract_pages i filename reader_pages acc = inr pages.
Proof.
  intros H. induction H as [|rp rest [t ->] _ IH]; intros i acc.
  - now exists acc.
  - cbn [extract_pages]. apply IH.
Qed.

Lemma extract_text_from_pdf_outcome (filename : string)
    (reader_pages : list (exn + text)) :
  outcome (extract_text_from_pdf (inr reader_pages) filename) =
  match extract_pages 0 filename reader_pages [] with
  | inl e => inl (ValueError (of_string "Error extracting text from PDF: "
                              ++ str_exn e))
  | inr pages => inr pages
  end.
Proof.
  unfold extract_text_from_pdf. rewrite outcome_try_except.
  destruct (extract_pages 0 filename reader_pages []) as [e|[|p pages]];
    reflexivity.
Qed.

Lemma extract_pages_unreadable (filename : string) (e : exn)
    (before : list text) (after : list (exn + text)) :
  forall (i : nat) (acc : list Page),
    extract_pages i filename (map inr before ++ inl e :: after) acc = inl e.
Proof.
  induction before as [|t before IH]; intros i acc; [reflexivity|].
  cbn [map app extract_pages]. apply IH.
Qed.

Lemma extract_pages_texts (filename : string) (texts : list text) :
  forall (i : nat) (acc : list Page),
    exists pages,
      extract_pages i filename (map inr texts) acc = inr pages /\
      map page_text pages = map page_text acc ++ filter has_text texts.
Proof.
  induction texts as [|t texts IH]; intros i acc.
  - exists acc. split; [reflexivity|]. now rewrite app_nil_r.
  - cbn [map extract_pages filter]. destruct (has_text t).
    + destruct (IH (S i) (acc ++ [mkPage t (Z.of_nat i + 1) filename]))
        as (pages & E & Htexts).
      exists pages. split; [exact E|].
      rewrite Htexts, map_app, <- app_assoc. reflexivity.
    + apply IH.
Qed.

Lemma chunk_pages_concat (fuel : nat) (pages : list Page) :
  forall (acc all_chunks : list Chunk),
    chunk_pages st fuel pages acc = Some all_chunks ->
    exists per_page,
      Forall2 (fun p page_chunks =>
                 chunk_text st fuel (page_text p) (page_no p) (page_source p)
                   None None = Some page_chunks) pages per_page /\
      all_chunks = acc ++ List.concat per_page.
Proof.
  induction pages as [|p pages IH]; intros acc all_chunks H.
  - injection H as <-. exists []. split; [constructor|].
    cbn. now rewrite app_nil_r.
  - cbn [chunk_pages] in H.
    destruct (chunk_text st fuel (page_text p) (page_no p) (page_source p)
                None None) as [page_chunks|] eqn:E; [|discriminate].
    destruct (IH _ _ H) as (per_page & Hall & ->).
    exists (page_chunks :: per_page). split; [constructor; assumption|].
    cbn [List.concat]. now rewrite app_assoc.
Qed.

End PdfFacts.

(** X4: when [extract_text_from_pdf] returns, the pages it keeps come
    in strictly increasing page number; each one is the reader's page
    of that number (counted from 1) with its text unchanged, has some
    non-blank text, and carries the file name as its source; no more
    pages are kept than the reader has. *)
Theorem extract_text_from_pdf_pages :
  forall (reader_pages : list (exn + text)) (filename : string)
         (pages : list Page),
    outcome (extract_text_from_pdf (inr reader_pages) filename) = inr pages ->
    StronglySorted Z.lt (map page_no pages) /\
    (List.length pages <= List.length reader_pages)%nat /\
    Forall (fun p => page_of_reader reader_pages p /\
                     has_text (page_text p) = true /\
                     page_source p = filename) pages.
Proof.
  intros reader_pages filename pages. unfold extract_text_from_pdf.
  rewrite outcome_try_except.
  destruct (extract_pages 0 filename reader_pages []) as [e|kept] eqn:E.
  - cbn. discriminate.
  - apply extract_pages_spec in E.
    destruct E as (new & -> & Hlen & Hall & Hsorted). cbn [app].
    assert (Hout : outcome
              (match new with
               | [] =>
                   emit (Stdout (of_string "WARNING: No text extracted from PDF '"
                                   ++ text_of_string filename
                                   ++ of_string "'. It might be an image-based PDF or corrupted.")) ;;;
                   ret new
               | _ :: _ => ret new
               end) = inr new) by (destruct new; reflexivity).
    rewrite Hout. intros H. injection H as <-.
    split; [exact Hsorted|]. split; [exact Hlen|].
    eapply Forall_impl; [|exact Hall]. cbn beta.
    intros p (Hb & Hn & Ht & Hs). unfold page_of_reader.
    rewrite Z.sub_0_r in Hn. repeat split; try assumption. cbn in Hb. lia.
Qed.

Lemma extract_text_from_pdf_pages_witness :
  StronglySorted Z.lt
    (map page_no [mkPage (of_string "one") 1 "f.pdf";
                  mkPage (of_string "three") 3 "f.pdf"]) /\
  (List.length [mkPage (of_string "one") 1 "f.pdf";
                mkPage (of_string "three") 3 "f.pdf"] <= 3)%nat /\
  Forall (fun p => page_of_reader
                     [inr (of_string "one"); inr (of_string "  ");
                      inr (of_string "three")] p /\
                   has_text (page_text p) = true /\
                   page_source p = "f.pdf"%string)
    [mkPage (of_string "one") 1 "f.pdf"; mkPage (of_string "three") 3 "f.pdf"].
Proof.
  apply (extract_text_from_pdf_pages
           [inr (of_string "one"); inr (of_string "  "); inr (of_string "three")]
           "f.pdf").
  reflexivity.
Defined.

(** X5: when the PDF cannot be opened, and when a page cannot be read
    after any number of readable pages, [extract_text_from_pdf] prints
    nothing and raises a [ValueError] whose message is "Error
    extracting text from PDF: " followed by the text of that very
    error; no page read before the failure is returned. *)
Theorem extract_text_from_pdf_errors :
  forall (filename : string) (e : exn) (before : list text)
         (after : list (exn + text)),
    extract_text_from_pdf (inl e) filename
    = ([], inl (ValueError (of_string "Error extracting text from PDF: "
                            ++ str_exn e))) /\
    extract_text_from_pdf (inr (map inr before ++ inl e :: after)) filename
    = ([], inl (ValueError (of_string "Error extracting text from PDF: "
                            ++ str_exn e))).
Proof.
  intros filename e before after. split; [reflexivity|].
  unfold extract_text_from_pdf.
  now rewrite (extract_pages_unreadable filename e before after 0 []).
Qed.

(** X6: under settings with 0 <= CHUNK_OVERLAP < CHUNK_SIZE and
    CHUNK_OVERLAP <= CHUNK_SIZE/2 + 2 (the defaults 500 and 100
    qualify), [process_pdf] returns for every PDF whose pages can all be
    read, given more iterations than the longest page has characters.
    The pages it processes are the ones [extract_text_from_pdf]
    returns, whose texts are the non-blank page texts of the PDF in
    their order; [pages_processed] is their number; [chunks] is, page
    after page, what [chunk_text] returns for each of these pages, and
    [chunks_created] is its length, at least one per page processed.
    Every chunk has at most CHUNK_SIZE characters, the file name as its
    source and a page number between 1 and the number of pages of the
    PDF. *)
Theorem process_pdf_returns :
  forall (st : Settings) (fuel : nat) (texts : list text) (filename : string),
    0 <= CHUNK_OVERLAP st < CHUNK_SIZE st ->
    CHUNK_OVERLAP st <= CHUNK_SIZE st / 2 + 2 ->
    Forall (fun t => len t < Z.of_nat fuel) texts ->
    exists result pages per_page,
      outcome (process_pdf st fuel (inr (map inr texts)) filename)
        = inr (Some result) /\
      outcome (extract_text_from_pdf (inr (map inr texts)) filename)
        = inr pages /\
      map page_text pages = filter has_text texts /\
      Forall2 (fun p page_chunks =>
                 chunk_text st fuel (page_text p) (page_no p) (page_source p)
                   None None = Some page_chunks) pages per_page /\
      filename_ result = filename /\
      pages_processed result = Z.of_nat (List.length (filter has_text texts)) /\
      chunks_ result = List.concat per_page /\
      chunks_created result = Z.of_nat (List.length (chunks_ result)) /\
      pages_processed result <= chunks_created result /\
      Forall (fun c => len (chunk_body c) <= CHUNK_SIZE st /\
                       source c = filename /\
                       1 <= page_number c <= Z.of_nat (List.length texts))
             (chunks_ result).
Proof.
  intros st fuel texts filename Hov Hhalf Hread.
  unfold process_pdf. rewrite outcome_bind, extract_text_from_pdf_outcome.
  destruct (extract_pages_texts filename texts 0 []) as (pages & E & Htexts).
  cbn [map app] in Htexts.
  rewrite E. pose proof E as Hspec. apply extract_pages_spec in Hspec.
  destruct Hspec as (new & Hnew & _ & Hall & _). cbn [app] in Hnew. subst new.
  rewrite length_map in Hall.
  destruct (chunk_pages_returns st Hov Hhalf fuel pages pages [])
    as (all_chunks & Eall & Hcount & Hq).
  - auto.
  - eapply Forall_impl; [|exact Hall]. cbn beta.
    intros p (_ & Hn & _). rewrite Forall_forall in Hread.
    apply nth_error_In in Hn. apply in_map_iff in Hn.
    destruct Hn as (t & Et & Ht). injection Et as ->. now apply Hread.
  - constructor.
  - destruct (chunk_pages_concat st fuel pages [] all_chunks Eall)
      as (per_page & Hper & Hconcat).
    cbn [app] in Hconcat.
    cbn [ret outcome snd]. rewrite Eall.
    exists (mkPdfResult filename (Z.of_nat (List.length pages))
              (Z.of_nat (List.length all_chunks)) all_chunks), pages, per_page.
    cbn [filename_ chunks_created pages_processed chunks_ List.length] in *.
    split; [reflexivity|]. split; [reflexivity|]. split; [exact Htexts|].
    split; [exact Hper|]. split; [reflexivity|].
    split; [now rewrite <- Htexts, length_map|].
    split; [exact Hconcat|]. split; [reflexivity|]. split; [lia|].
    eapply Forall_impl; [|exact Hq]. cbn beta.
    intros c (Hc & Hex). apply Exists_exists in Hex.
    destruct Hex as (p & Hp & Hpage & Hsrc).
    rewrite Forall_forall in Hall. destruct (Hall p Hp) as (Hb & _ & _ & Hs).
    split; [exact Hc|]. split; [congruence|]. lia.
Qed.

Lemma process_pdf_returns_witness :
  exists result pages per_page,
    outcome (process_pdf default_settings 20
               (inr (map inr [of_string "one"; of_string "  ";
                              of_string "three"])) "f.pdf")
      = inr (Some result) /\
    outcome (extract_text_from_pdf
               (inr (map inr [of_string "one"; of_string "  ";
                              of_string "three"])) "f.pdf")
      = inr pages /\
    map page_text pages
      = filter has_text [of_string "one"; of_string "  "; of_string "three"] /\
    Forall2 (fun p page_chunks =>
               chunk_text default_settings 20 (page_text p) (page_no p)
                 (page_source p) None None = Some page_chunks) pages per_page /\
    filename_ result = "f.pdf"%string /\
    pages_processed result
      = Z.of_nat (List.length
          (filter has_text [of_string "one"; of_string "  "; of_string "three"])) /\
    chunks_ result = List.concat per_page /\
    chunks_created result = Z.of_nat (List.length (chunks_ result)) /\
    pages_processed result <= chunks_created result /\
    Forall (fun c => len (chunk_body c) <= CHUNK_SIZE default_settings /\
                     source c = "f.pdf"%string /\
                     1 <= page_number c
                       <= Z.of_nat (List.length [of_string "one"; of_string "  ";
                                                 of_string "three"]))
           (chunks_ result).
Proof.
  apply (process_pdf_returns default_settings 20
           [of_string "one"; of_string "  "; of_string "three"] "f.pdf").
  - vm_compute. split; [discriminate | reflexivity].
  - vm_compute. discriminate.
  - repeat constructor.
Defined.

(* ================================================================== *)
(** * The command-line chatbot's chunker and ingestion *)
(* ================================================================== *)

Section ChatbotChunker.

Variables (t : text) (cs ov : Z).

Lemma chatbot_loop_stuck (fuel : nat) :
  0 < len t -> cs <= ov ->
  forall (start : Z) (acc : list text),
    start <= 0 -> ChatbotIngest.chunk_loop fuel t cs ov start acc = None.
Proof.
  intros Hlen Hstep. induction fuel as [|fuel IH]; intros start acc Hstart.
  - reflexivity.
  - cbn [ChatbotIngest.chunk_loop].
    destruct (Z.ltb_spec start (len t)); [|lia].
    apply IH. lia.
Qed.

Hypothesis size_pos : 0 < cs.
Hypothesis step_pos : ov < cs.

Lemma chatbot_loop_returns (fuel : nat) :
  forall (start : Z) (acc : list text),
    0 <= start -> Z.max 0 (len t - start) < Z.of_nat fuel ->
    exists new,
      ChatbotIngest.chunk_loop fuel t cs ov start acc = Some (acc ++ new) /\
      Forall (fun c => c <> [] /\ trimmed c /\ len c <= cs) new /\
      Z.of_nat (List.length new) * (cs - ov)
        < Z.max 0 (len t - start) + (cs - ov).
Proof.
  induction fuel as [|fuel IH]; intros start acc Hstart Hfuel; [lia|].
  cbn [ChatbotIngest.chunk_loop].
  destruct (Z.ltb_spec start (len t)) as [Hlt|Hge].
  - assert (Hlen : len (strip (slice t start (start + cs))) <= cs).
    { pose proof (strip_len (slice t start (start + cs))).
      rewrite len_slice in * by lia. lia. }
    pose proof (strip_trimmed (slice t start (start + cs))) as Htrim.
    destruct (strip (slice t start (start + cs))) as [|c chunk] eqn:E.
    + destruct (IH (start + (cs - ov)) acc) as (new & Hrun & Hall & Hcount);
        [lia | lia |].
      exists new. split; [exact Hrun|]. split; [exact Hall|]. nia.
    + destruct (IH (start + (cs - ov)) (acc ++ [c :: chunk]))
        as (new & Hrun & Hall & Hcount); [lia | lia |].
      exists ((c :: chunk) :: new). rewrite <- app_assoc in Hrun.
      split; [exact Hrun|]. split.
      * constructor; [|exact Hall]. split; [discriminate|]. split; assumption.
      * cbn [List.length]. rewrite Nat2Z.inj_succ.
        destruct (Z.max_spec 0 (len t - (start + (cs - ov)))) as [[_ E1]|[Hneg E1]];
          rewrite E1 in Hcount.
        -- nia.
        -- assert (Z.of_nat (List.length new) = 0) as -> by nia. lia.
  - exists []. rewrite app_nil_r. split; [reflexivity|].
    split; [constructor|]. cbn [List.length]. lia.
Qed.

End ChatbotChunker.

(** X7: with a positive chunk size and an overlap below it,
    [RAGChatbot.chunk_text] returns once it is allowed more iterations
    than the text has characters. A text no longer than the chunk size
    comes back whole as the only chunk; otherwise every chunk is
    non-empty, has no whitespace at either end and at most [chunk_size]
    characters, and there are at most ceil(len / (chunk_size - overlap))
    chunks. *)
Theorem chatbot_chunk_text_returns :
  forall (t : text) (chunk_size overlap : Z) (fuel : nat),
    0 < chunk_size -> overlap < chunk_size -> len t < Z.of_nat fuel ->
    exists chunks,
      ChatbotIngest.chunk_text fuel t chunk_size overlap = Some chunks /\
      (len t <= chunk_size -> chunks = [t]) /\
      (chunk_size < len t ->
       Forall (fun c => c <> [] /\ trimmed c /\ len c <= chunk_size) chunks /\
       Z.of_nat (List.length chunks) * (chunk_size - overlap)
         < len t + (chunk_size - overlap)).
Proof.
  intros t cs ov fuel Hsize Hstep Hfuel. unfold ChatbotIngest.chunk_text.
  destruct (Z.leb_spec (len t) cs) as [Hshort|Hlong].
  - exists [t]. split; [reflexivity|]. split; [reflexivity | lia].
  - destruct (chatbot_loop_returns t cs ov Hsize Hstep fuel 0 [])
      as (new & Hrun & Hall & Hcount); [lia | lia |].
    exists new. cbn [app] in Hrun. split; [exact Hrun|].
    split; [lia|]. intros _. split; [exact Hall | lia].
Qed.

Lemma chatbot_chunk_text_returns_witness :
  exists chunks,
    ChatbotIngest.chunk_text 12 (of_string "aaaa bbbbbb") 5 1 = Some chunks /\
    (len (of_string "aaaa bbbbbb") <= 5 -> chunks = [of_string "aaaa bbbbbb"]) /\
    (5 < len (of_string "aaaa bbbbbb") ->
     Forall (fun c => c <> [] /\ trimmed c /\ len c <= 5) chunks /\
     Z.of_nat (List.length chunks) * (5 - 1)
       < len (of_string "aaaa bbbbbb") + (5 - 1)).
Proof.
  apply (chatbot_chunk_text_returns (of_string "aaaa bbbbbb") 5 1 12).
  - lia.
  - lia.
  - vm_compute. reflexivity.
Defined.

(** X8: when the overlap is not below the chunk size, the start of the
    window never advances: on every text longer than the (non-negative)
    chunk size [RAGChatbot.chunk_text] returns for no number of
    iterations. *)
Theorem chatbot_chunk_text_never_returns :
  forall (t : text) (chunk_size overlap : Z) (fuel : nat),
    0 <= chunk_size -> chunk_size < len t -> chunk_size <= overlap ->
    ChatbotIngest.chunk_text fuel t chunk_size overlap = None.
Proof.
  intros t cs ov fuel Hsize Hlong Hstep. unfold ChatbotIngest.chunk_text.
  destruct (Z.leb_spec (len t) cs); [lia|].
  apply chatbot_loop_stuck; lia.
Qed.

Lemma chatbot_chunk_text_never_returns_witness :
  ChatbotIngest.chunk_text 1000 (of_string "abcdef") 2 2 = None.
Proof.
  apply (chatbot_chunk_text_never_returns (of_string "abcdef") 2 2 1000).
  - lia.
  - vm_compute. reflexivity.
  - lia.
Defined.

Section ChatbotDocuments.

Import ChatbotIngest.

Lemma text_eqb_refl (a : text) : text_eqb a a = true.
Proof. unfold text_eqb. destruct (list_eq_dec N.eq_dec a a); congruence. Qed.

Lemma text_eqb_neq (a b : text) : a <> b -> text_eqb a b = false.
Proof. unfold text_eqb. destruct (list_eq_dec N.eq_dec a b); congruence. Qed.

Lemma dict_get_set_same (d : dict) (k : text) (v : pyval) :
  dict_get (dict_set d k v) k = Some v.
Proof.
  induction d as [|[k' v'] d IH]; cbn [dict_set dict_get].
  - now rewrite text_eqb_refl.
  - destruct (text_eqb k k') eqn:E; cbn [dict_get]; rewrite E; auto.
Qed.

Lemma dict_get_set_other (d : dict) (k k' : text) (v : pyval) :
  k <> k' -> dict_get (dict_set d k v) k' = dict_get d k'.
Proof.
  intros Hne. induction d as [|[k0 v0] d IH]; cbn [dict_set dict_get].
  - rewrite text_eqb_neq by congruence. reflexivity.
  - destruct (text_eqb k k0) eqn:E; cbn [dict_get].
    + unfold text_eqb in E. destruct (list_eq_dec N.eq_dec k k0); [|discriminate].
      subst k0. rewrite text_eqb_neq by congruence. reflexivity.
    + destruct (text_eqb k' k0); [reflexivity | exact IH].
Qed.

Lemma chunk_metadatas_nth (metadata : dict) (doc_id : text) (total : Z)
    (chunks : list text) :
  forall (i j : nat) (m : dict),
    nth_error (chunk_metadatas metadata doc_id total i chunks) j = Some m ->
    dict_get m (of_string "chunk_index") = Some (VInt (Z.of_nat (i + j))) /\
    dict_get m (of_string "total_chunks") = Some (VInt total) /\
    dict_get m (of_string "parent_doc_id") = Some (VStr doc_id).
Proof.
  induction chunks as [|c chunks IH]; intros i [|j] m H; try discriminate.
  - cbn [chunk_metadatas nth_error] in H. injection H as <-.
    rewrite Nat.add_0_r. split; [|split].
    + rewrite !dict_get_set_other by (intros E; vm_compute in E; discriminate).
      apply dict_get_set_same.
    + rewrite dict_get_set_other by (intros E; vm_compute in E; discriminate).
      apply dict_get_set_same.
    + apply dict_get_set_same.
  - cbn [chunk_metadatas nth_error] in H. apply IH in H.
    replace (i + S j)%nat with (S i + j)%nat by lia. exact H.
Qed.

Lemma chunk_metadatas_length (metadata : dict) (doc_id : text) (total : Z)
    (i : nat) (chunks : list text) :
  List.length (chunk_metadatas metadata doc_id total i chunks)
  = List.length chunks.
Proof.
  revert i. induction chunks as [|c chunks IH]; intros i; cbn [chunk_metadatas List.length];
    [|rewrite IH]; reflexivity.
Qed.

Lemma of_string_inj (a b : string) : of_string a = of_string b -> a = b.
Proof.
  revert b. induction a as [|x a IH]; intros [|y b] H; try discriminate.
  - reflexivity.
  - cbn in H. injection H as Hx Hrest.
    apply (f_equal ascii_of_N) in Hx. rewrite !ascii_N_embedding in Hx.
    subst y. f_equal. now apply IH.
Qed.

Lemma to_int_not_nil (z : Z) :
  Z.to_int z <> Decimal.Pos Decimal.Nil /\ Z.to_int z <> Decimal.Neg Decimal.Nil.
Proof.
  destruct z; simpl; split; try discriminate; intros H; injection H as H;
    apply (Unsigned.to_uint_nonnil p H).
Qed.

(** Distinct integers are printed differently. *)
Lemma str_int_inj (a b : Z) : str_int a = str_int b -> a = b.
Proof.
  unfold str_int. intros H. apply of_string_inj in H.
  apply (f_equal NilZero.int_of_string) in H.
  destruct (to_int_not_nil a), (to_int_not_nil b).
  rewrite !NilZero.isi in H by assumption.
  injection H as H. now apply DecimalZ.to_int_inj.
Qed.

Lemma chunk_ids_length (doc_id : text) (i : nat) (chunks : list text) :
  List.length (chunk_ids doc_id i chunks) = List.length chunks.
Proof.
  revert i. induction chunks as [|c chunks IH]; intros i; cbn [chunk_ids List.length];
    [|rewrite IH]; reflexivity.
Qed.

Lemma chunk_ids_In (doc_id : text) (chunks : list text) :
  forall (i : nat) (x : text),
    In x (chunk_ids doc_id i chunks) ->
    exists j, (i <= j)%nat /\ x = doc_id ++ of_string "_" ++ str_int (Z.of_nat j).
Proof.
  induction chunks as [|c chunks IH]; intros i x H; [contradiction|].
  destruct H as [<-|H].
  - exists i. split; [lia | reflexivity].
  - destruct (IH _ _ H) as (j & Hj & ->). exists j. split; [lia | reflexivity].
Qed.

Lemma chunk_ids_NoDup (doc_id : text) (chunks : list text) (i : nat) :
  NoDup (chunk_ids doc_id i chunks).
Proof.
  revert i. induction chunks as [|c chunks IH]; intros i; cbn [chunk_ids].
  - constructor.
  - constructor; [|apply IH].
    intros H. apply chunk_ids_In in H. destruct H as (j & Hj & E).
    apply app_inv_head in E. apply app_inv_head in E.
    apply str_int_inj in E. lia.
Qed.

Lemma _get_embedding_returns (backend : exn + vector) (t : text) :
  exists v, outcome (GeminiRagChatbot._get_embedding backend t) = inr v.
Proof.
  unfold GeminiRagChatbot._get_embedding.
  destruct (strip t); [eexists; reflexivity|].
  destruct backend; eexists; reflexivity.
Qed.

Lemma embed_all_returns (backend : nat -> exn + vector) (chunks : list text) :
  forall i, exists vs,
    outcome (embed_all backend i chunks) = inr vs /\
    List.length vs = List.length chunks.
Proof.
  induction chunks as [|c chunks IH]; intros i.
  - exists []. split; reflexivity.
  - cbn [embed_all]. rewrite outcome_bind.
    destruct (_get_embedding_returns (backend i) c) as [v ->].
    rewrite outcome_bind. destruct (IH (S i)) as (vs & -> & Hlen).
    exists (v :: vs). split; [reflexivity|]. cbn [List.length]. now rewrite Hlen.
Qed.

Lemma find_surrogates_encodable (t : text) :
  forall i, ChatbotIngest.encodable t = true ->
            ChatbotIngest.find_surrogates t i = None.
Proof.
  induction t as [|c t IH]; intros i H; [reflexivity|].
  cbn [ChatbotIngest.encodable forallb] in H.
  apply andb_true_iff in H. destruct H as [Hc Ht].
  cbn [ChatbotIngest.find_surrogates].
  destruct (ChatbotIngest.surrogate c); [discriminate|].
  now apply IH.
Qed.

Lemma find_surrogates_not_encodable (t : text) :
  forall i, ChatbotIngest.encodable t = false ->
            exists start run, ChatbotIngest.find_surrogates t i = Some (start, run).
Proof.
  induction t as [|c t IH]; intros i H; [discriminate|].
  cbn [ChatbotIngest.encodable forallb] in H.
  cbn [ChatbotIngest.find_surrogates].
  destruct (ChatbotIngest.surrogate c); [eexists; eexists; reflexivity|].
  cbn [negb andb] in H. now apply IH.
Qed.

Lemma encode_error_encodable (t : text) :
  ChatbotIngest.encodable t = true -> ChatbotIngest.encode_error t = None.
Proof.
  intros H. unfold ChatbotIngest.encode_error.
  now rewrite (find_surrogates_encodable t 0 H).
Qed.

Lemma encode_error_not_encodable (t : text) :
  ChatbotIngest.encodable t = false ->
  exists msg, ChatbotIngest.encode_error t = Some (UnicodeEncodeError msg).
Proof.
  intros H. unfold ChatbotIngest.encode_error.
  destruct (find_surrogates_not_encodable t 0 H) as (start & run & ->).
  destruct run as [|c [|c' run]]; eexists; reflexivity.
Qed.

End ChatbotDocuments.

(** X9: [RAGChatbot.add_document] starts with [content.encode()]. On a
    content that holds a surrogate code point this raises
    [UnicodeEncodeError] before anything is printed, chunked or
    embedded. On any other content it never raises before it reaches
    [collection.add], even when every embedding call fails: given more
    iterations than the content has characters it hands
    [collection.add] four lists of the same length; the ids are
    pairwise distinct, the document id is the digest of the content,
    and the metadata of the chunk at position [i] records
    [chunk_index = i], [total_chunks] = the number of chunks and
    [parent_doc_id] = the document id. *)
Theorem add_document_call :
  forall (md5 : text -> text) (now : text) (fuel : nat)
         (backend : nat -> exn + vector) (content : text)
         (metadata : ChatbotIngest.dict),
    (ChatbotIngest.encodable content = false ->
     exists msg,
       ChatbotIngest.encode_error content = Some (UnicodeEncodeError msg) /\
       ChatbotIngest.add_document md5 now fuel backend content metadata
       = ([], inl (UnicodeEncodeError msg))) /\
    (ChatbotIngest.encodable content = true ->
     len content < Z.of_nat fuel ->
     exists call,
       outcome (ChatbotIngest.add_document md5 now fuel backend content metadata)
         = inr (Some (md5 content, call)) /\
       List.length (ChatbotIngest.add_embeddings call)
         = List.length (ChatbotIngest.add_documents call) /\
       List.length (ChatbotIngest.add_ids call)
         = List.length (ChatbotIngest.add_documents call) /\
       List.length (ChatbotIngest.add_metadatas call)
         = List.length (ChatbotIngest.add_documents call) /\
       NoDup (ChatbotIngest.add_ids call) /\
       forall (i : nat) (m : ChatbotIngest.dict),
         nth_error (ChatbotIngest.add_metadatas call) i = Some m ->
         ChatbotIngest.dict_get m (of_string "chunk_index")
           = Some (ChatbotIngest.VInt (Z.of_nat i)) /\
         ChatbotIngest.dict_get m (of_string "total_chunks")
           = Some (ChatbotIngest.VInt
                     (Z.of_nat (List.length (ChatbotIngest.add_documents call)))) /\
         ChatbotIngest.dict_get m (of_string "parent_doc_id")
           = Some (ChatbotIngest.VStr (md5 content))).
Proof.
  intros md5 now fuel backend content metadata. split.
  - intros Hbad.
    destruct (encode_error_not_encodable content Hbad) as [msg Hmsg].
    exists msg. split; [exact Hmsg|].
    unfold ChatbotIngest.add_document. now rewrite Hmsg.
  - intros Hgood Hfuel.
    unfold ChatbotIngest.add_document.
    rewrite (encode_error_encodable content Hgood).
    assert (Hchunks : exists chunks,
              ChatbotIngest.chunk_text fuel content 500 50 = Some chunks).
    { unfold ChatbotIngest.chunk_text.
      destruct (len content <=? 500); [eexists; reflexivity|].
      pose proof (len_nonneg content) as Hnn.
      destruct (chatbot_loop_returns content 500 50 ltac:(lia) ltac:(lia)
                  fuel 0 []) as (new & Hrun & _); [lia | lia |].
      exists new. exact Hrun. }
    destruct Hchunks as [chunks ->].
    rewrite outcome_bind. cbn [emit outcome snd].
    rewrite outcome_bind.
    destruct (embed_all_returns backend chunks 0) as (vs & -> & Hlen).
    rewrite outcome_bind. cbn [emit outcome snd ret].
    eexists. split; [reflexivity|].
    cbn [ChatbotIngest.add_embeddings ChatbotIngest.add_documents
         ChatbotIngest.add_ids ChatbotIngest.add_metadatas].
    split; [exact Hlen|].
    split; [apply chunk_ids_length|].
    split; [apply chunk_metadatas_length|].
    split; [apply chunk_ids_NoDup|].
    intros i m H. apply chunk_metadatas_nth in H. exact H.
Qed.

Lemma add_document_call_witness :
  ChatbotIngest.add_document (fun c => of_string "d41d8")
    (of_string "2024-01-01T00:00:00") 10
    (fun _ => inl (BackendError (of_string "offline")))
    (of_string "ab" ++ [55296%N]) []
  = ([], inl (UnicodeEncodeError
       (of_string "'utf-8' codec can't encode character '\ud800' in position 2: surrogates not allowed"))) /\
  exists call,
    outcome (ChatbotIngest.add_document (fun c => of_string "d41d8") (of_string "2024-01-01T00:00:00")
               10 (fun _ => inl (BackendError (of_string "offline")))
               (of_string "hello") [])
      = inr (Some (of_string "d41d8", call)) /\
    List.length (ChatbotIngest.add_embeddings call)
      = List.length (ChatbotIngest.add_documents call) /\
    List.length (ChatbotIngest.add_ids call)
      = List.length (ChatbotIngest.add_documents call) /\
    List.length (ChatbotIngest.add_metadatas call)
      = List.length (ChatbotIngest.add_documents call) /\
    NoDup (ChatbotIngest.add_ids call) /\
    forall (i : nat) (m : ChatbotIngest.dict),
      nth_error (ChatbotIngest.add_metadatas call) i = Some m ->
      ChatbotIngest.dict_get m (of_string "chunk_index")
        = Some (ChatbotIngest.VInt (Z.of_nat i)) /\
      ChatbotIngest.dict_get m (of_string "total_chunks")
        = Some (ChatbotIngest.VInt
                  (Z.of_nat (List.length (ChatbotIngest.add_documents call)))) /\
      ChatbotIngest.dict_get m (of_string "parent_doc_id")
        = Some (ChatbotIngest.VStr (of_string "d41d8")).
Proof.
  split.
  - destruct (proj1 (add_document_call (fun c => of_string "d41d8")
                       (of_string "2024-01-01T00:00:00") 10
                       (fun _ => inl (BackendError (of_string "offline")))
                       (of_string "ab" ++ [55296%N]) []) eq_refl)
      as (msg & Hmsg & Hrun).
    rewrite Hrun. vm_compute in Hmsg. injection Hmsg as <-. reflexivity.
  - apply (proj2 (add_document_call (fun c => of_string "d41d8")
                    (of_string "2024-01-01T00:00:00") 10
                    (fun _ => inl (BackendError (of_string "offline")))
                    (of_string "hello") [])).
    + reflexivity.
    + vm_compute. reflexivity.
Defined.

(* ================================================================== *)
(** * Retries of a single embedding and embedding of chunks *)
(* ================================================================== *)

Section EmbeddingRetries.

Lemma create_embedding_attempt_failure (e : exn) (t : text) :
  exists msg,
    create_embedding_attempt (inl e) t = ([EmbedCall t], inl (ValueError msg)).
Proof.
  unfold create_embedding_attempt. cbn.
  destruct (contains _ _); eexists; reflexivity.
Qed.

Lemma create_embedding_attempt_success (v : vector) (t : text) :
  create_embedding_attempt (inr v) t = ([EmbedCall t], inr v).
Proof. reflexivity. Qed.

Lemma assign_aligned (chunks : list EmbedChunks.ChunkDict) :
  forall embeddings : list vector,
    List.length embeddings = List.length chunks ->
    EmbedChunks.assign chunks embeddings
    = ([], inr (map (fun ce => EmbedChunks.set_embedding (fst ce) (snd ce))
                    (combine chunks embeddings))).
Proof.
  induction chunks as [|c chunks IH]; intros [|v vs] H; try discriminate.
  - reflexivity.
  - cbn [EmbedChunks.assign combine map fst snd]. rewrite IH by (cbn in H; lia).
    reflexivity.
Qed.

Lemma nth_error_combine {X Y} (la : list X) (lb : list Y) (p : nat)
    (a : X) (b : Y) :
  nth_error la p = Some a -> nth_error lb p = Some b ->
  nth_error (combine la lb) p = Some (a, b).
Proof.
  revert lb p. induction la as [|x la IH]; intros [|y lb] [|p] Ha Hb;
    try discriminate.
  - cbn in *. congruence.
  - cbn [combine nth_error] in *. now apply IH.
Qed.

End EmbeddingRetries.

(** X10: if attempt [k] (1, 2 or 3) is the first on which the backend
    answers, [create_embedding] returns that answer after exactly [k]
    backend calls, all with the given text, and [k - 1] waits. With
    k = 3 this is the scenario "fail twice, then succeed". *)
Theorem create_embedding_first_success :
  forall (script : EmbedScript) (t : text) (k : nat) (v : vector),
    (1 <= k <= 3)%nat ->
    script k = inr v ->
    (forall j, (1 <= j < k)%nat -> exists e, script j = inl e) ->
    outcome (create_embedding script t) = inr v /\
    embed_calls (trace (create_embedding script t)) = repeat t k /\
    List.length (sleeps (trace (create_embedding script t))) = (k - 1)%nat.
Proof.
  intros script t k v Hk Hv Hfail.
  unfold create_embedding, retry3. cbn [retrying].
  assert (Hcases : k = 1%nat \/ k = 2%nat \/ k = 3%nat) by lia.
  destruct Hcases as [->|[->| ->]].
  - rewrite Hv, create_embedding_attempt_success. repeat split.
  - destruct (Hfail 1%nat ltac:(lia)) as [e1 E1]. rewrite E1, Hv.
    destruct (create_embedding_attempt_failure e1 t) as [m1 ->].
    rewrite create_embedding_attempt_success. repeat split.
  - destruct (Hfail 1%nat ltac:(lia)) as [e1 E1].
    destruct (Hfail 2%nat ltac:(lia)) as [e2 E2]. rewrite E1, E2, Hv.
    destruct (create_embedding_attempt_failure e1 t) as [m1 ->].
    destruct (create_embedding_attempt_failure e2 t) as [m2 ->].
    rewrite create_embedding_attempt_success. repeat split.
Qed.

Lemma create_embedding_first_success_witness :
  outcome (create_embedding
             (fun k => match k with
                       | 3%nat => inr [1%Q]
                       | _ => inl (BackendError (of_string "timeout"))
                       end) (of_string "q")) = inr [1%Q] /\
  embed_calls (trace (create_embedding
             (fun k => match k with
                       | 3%nat => inr [1%Q]
                       | _ => inl (BackendError (of_string "timeout"))
                       end) (of_string "q"))) = repeat (of_string "q") 3 /\
  List.length (sleeps (trace (create_embedding
             (fun k => match k with
                       | 3%nat => inr [1%Q]
                       | _ => inl (BackendError (of_string "timeout"))
                       end) (of_string "q")))) = (3 - 1)%nat.
Proof.
  apply (create_embedding_first_success
           (fun k => match k with
                     | 3%nat => inr [1%Q]
                     | _ => inl (BackendError (of_string "timeout"))
                     end) (of_string "q") 3 [1%Q]).
  - lia.
  - reflexivity.
  - intros j Hj. assert (j = 1%nat \/ j = 2%nat) as [->| ->] by lia;
      eexists; reflexivity.
Defined.



(** X12: [embed_chunks] never raises and returns the chunks in their
    original order and number, each with its text, source, page number
    and id unchanged and its embedding set to the vector settled for
    its own text (gathered call, else one retry, else the zero
    vector). *)
Theorem embed_chunks_aligned :
  forall (first again : nat -> EmbedScript)
         (chunks : list EmbedChunks.ChunkDict),
    exists out,
      outcome (EmbedChunks.embed_chunks first again chunks) = inr out /\
      List.length out = List.length chunks /\
      forall p c, nth_error chunks p = Some c ->
        nth_error out p
        = Some (EmbedChunks.set_embedding c
                  (settled first again p (EmbedChunks.cd_text c))).
Proof.
  intros first again chunks. unfold EmbedChunks.embed_chunks.
  rewrite outcome_bind.
  unfold create_embeddings_batch. cbn [Z.eqb Z.ltb Z.compare].
  rewrite embed_groups_outcome, concat_range_groups by (cbn; lia).
  cbn [app].
  rewrite assign_aligned
    by (rewrite settled_from_length; apply length_map).
  cbn [outcome snd]. eexists. split; [reflexivity|].
  split.
  - rewrite length_map, length_combine, settled_from_length, length_map. lia.
  - intros p c Hc.
    rewrite nth_error_map.
    assert (Hv : nth_error (settled_from first again 0 (map EmbedChunks.cd_text chunks)) p
                 = Some (settled first again p (EmbedChunks.cd_text c))).
    { rewrite (settled_from_nth first again 0 p _ (EmbedChunks.cd_text c)).
      - reflexivity.
      - rewrite nth_error_map, Hc. reflexivity. }
    rewrite (nth_error_combine _ _ _ _ _ Hc Hv). reflexivity.
Qed.

Section ChatbotResponse.

Lemma render_docs_with_metadata (docs : list GeminiRagChatbot.RetrievedDoc) :
  forall i, with_metadata docs = true ->
            exists parts, GeminiRagChatbot.render_docs i docs = inr parts.
Proof.
  induction docs as [|d docs IH]; intros i H; [eexists; reflexivity|].
  cbn [with_metadata forallb] in H. apply andb_true_iff in H.
  destruct H as [Hd Hdocs].
  cbn [GeminiRagChatbot.render_docs].
  destruct (GeminiRagChatbot.doc_metadata d); [|discriminate].
  destruct (IH (S i) Hdocs) as [parts ->]. eexists. reflexivity.
Qed.

Lemma render_docs_without_metadata (docs : list GeminiRagChatbot.RetrievedDoc) :
  forall i, with_metadata docs = false ->
            GeminiRagChatbot.render_docs i docs
            = inl (AttributeError
                     (of_string "'NoneType' object has no attribute 'get'")).
Proof.
  induction docs as [|d docs IH]; intros i H; [discriminate|].
  cbn [with_metadata forallb] in H.
  cbn [GeminiRagChatbot.render_docs].
  destruct (GeminiRagChatbot.doc_metadata d); [|reflexivity].
  cbn [andb] in H. now rewrite (IH (S i) H).
Qed.

Lemma generate_response_returns (llm : exn + text) (query : text)
    (docs : list GeminiRagChatbot.RetrievedDoc) :
  with_metadata (firstn 3 docs) = true ->
  exists answer,
    outcome (GeminiRagChatbot.generate_response llm query docs) = inr answer /\
    (docs = [] -> answer = GeminiRagChatbot.no_information).
Proof.
  intros H. unfold GeminiRagChatbot.generate_response.
  destruct docs as [|d docs]; [eexists; split; reflexivity|].
  destruct (render_docs_with_metadata _ 0 H) as [parts ->].
  destruct llm; eexists; (split; [reflexivity | discriminate]).
Qed.

Lemma generate_response_raises (llm : exn + text) (query : text)
    (docs : list GeminiRagChatbot.RetrievedDoc) :
  with_metadata (firstn 3 docs) = false ->
  GeminiRagChatbot.generate_response llm query docs
  = ([], inl (AttributeError
                (of_string "'NoneType' object has no attribute 'get'"))).
Proof.
  intros H. unfold GeminiRagChatbot.generate_response.
  destruct docs as [|d docs]; [discriminate|].
  now rewrite (render_docs_without_metadata _ 0 H).
Qed.

Lemma generate_response_calls (llm : exn + text) (query : text)
    (docs : list GeminiRagChatbot.RetrievedDoc) :
  (List.length (generate_calls
     (trace (GeminiRagChatbot.generate_response llm query docs))) <= 1)%nat /\
  embed_calls (trace (GeminiRagChatbot.generate_response llm query docs)) = [].
Proof.
  unfold GeminiRagChatbot.generate_response.
  destruct docs as [|d docs]; [cbn; split; [lia | reflexivity]|].
  destruct (GeminiRagChatbot.render_docs 0 (firstn 3 (d :: docs)));
    [cbn; split; [lia | reflexivity]|].
  destruct llm; cbn; split; try lia; reflexivity.
Qed.

End ChatbotResponse.

(** X13: what [RAGChatbot.generate_response] does depends only on the
    first three retrieved documents, and it calls the model at most
    once. When each of those documents carries a metadata dictionary it
    never raises, whatever the model does. When the metadata of one of
    them is [None], building the context raises [AttributeError]
    outside the [try], before the model is called. *)
Theorem chatbot_generate_response_uses_three :
  forall (llm : exn + text) (query : text)
         (docs : list GeminiRagChatbot.RetrievedDoc),
    GeminiRagChatbot.generate_response llm query docs
    = GeminiRagChatbot.generate_response llm query (firstn 3 docs) /\
    (List.length (generate_calls
       (trace (GeminiRagChatbot.generate_response llm query docs))) <= 1)%nat /\
    (with_metadata (firstn 3 docs) = true ->
     exists answer,
       outcome (GeminiRagChatbot.generate_response llm query docs) = inr answer) /\
    (with_metadata (firstn 3 docs) = false ->
     GeminiRagChatbot.generate_response llm query docs
     = ([], inl (AttributeError
                   (of_string "'NoneType' object has no attribute 'get'")))).
Proof.
  intros llm query docs. repeat split.
  - destruct docs as [|d1 [|d2 [|d3 [|d4 docs]]]]; reflexivity.
  - apply generate_response_calls.
  - intros H. destruct (generate_response_returns llm query docs H)
      as (answer & Hanswer & _).
    now exists answer.
  - apply generate_response_raises.
Qed.

Lemma chatbot_generate_response_uses_three_witness :
  (exists answer,
     outcome (GeminiRagChatbot.generate_response
                (inl (BackendError (of_string "quota"))) (of_string "q")
                [GeminiRagChatbot.mkDoc (of_string "a") (Some None) 0 (of_string "1");
                 GeminiRagChatbot.mkDoc (of_string "b")
                   (Some (Some (of_string "f.pdf"))) 0 (of_string "2");
                 GeminiRagChatbot.mkDoc (of_string "c") (Some None) 0 (of_string "3");
                 GeminiRagChatbot.mkDoc (of_string "d") None 0 (of_string "4")])
     = inr answer) /\
  GeminiRagChatbot.generate_response (inr (of_string "fine")) (of_string "q")
    [GeminiRagChatbot.mkDoc (of_string "a") (Some None) 0 (of_string "1");
     GeminiRagChatbot.mkDoc (of_string "b") None 0 (of_string "2")]
  = ([], inl (AttributeError
                (of_string "'NoneType' object has no attribute 'get'"))).
Proof.
  split.
  - apply (proj1 (proj2 (proj2 (chatbot_generate_response_uses_three
             (inl (BackendError (of_string "quota"))) (of_string "q")
             [GeminiRagChatbot.mkDoc (of_string "a") (Some None) 0 (of_string "1");
              GeminiRagChatbot.mkDoc (of_string "b")
                (Some (Some (of_string "f.pdf"))) 0 (of_string "2");
              GeminiRagChatbot.mkDoc (of_string "c") (Some None) 0 (of_string "3");
              GeminiRagChatbot.mkDoc (of_string "d") None 0 (of_string "4")])))).
    reflexivity.
  - apply (proj2 (proj2 (proj2 (chatbot_generate_response_uses_three
             (inr (of_string "fine")) (of_string "q")
             [GeminiRagChatbot.mkDoc (of_string "a") (Some None) 0 (of_string "1");
              GeminiRagChatbot.mkDoc (of_string "b") None 0 (of_string "2")])))).
    reflexivity.
Defined.

(* ================================================================== *)
(** * Ordering of the context and stages of the query pipeline *)
(* ================================================================== *)

Section ContextOrder.

Lemma insert_desc_perm (c : ContextChunk) (l : list ContextChunk) :
  Permutation (insert_desc c l) (c :: l).
Proof.
  induction l as [|d l IH]; cbn [insert_desc]; [reflexivity|].
  destruct (Qle_bool (score_key d) (score_key c)); [reflexivity|].
  rewrite IH. apply perm_swap.
Qed.

Lemma insert_desc_sorted (c : ContextChunk) (l : list ContextChunk) :
  StronglySorted (fun a b => (score_key b <= score_key a)%Q) l ->
  StronglySorted (fun a b => (score_key b <= score_key a)%Q) (insert_desc c l).
Proof.
  intros H. induction H as [|d l Hsorted IH Hall]; cbn [insert_desc].
  - repeat constructor.
  - destruct (Qle_bool (score_key d) (score_key c)) eqn:E.
    + apply Qle_bool_iff in E. constructor.
      * constructor; assumption.
      * constructor; [exact E|].
        eapply Forall_impl; [|exact Hall]. cbn beta.
        intros x Hx. eapply Qle_trans; eassumption.
    + assert (Hlt : (score_key c < score_key d)%Q).
      { apply Qnot_le_lt. intros Hle. apply Qle_bool_iff in Hle. congruence. }
      constructor; [exact IH|].
      apply Forall_forall. intros x Hx. apply insert_desc_In in Hx.
      destruct Hx as [->|Hx].
      * now apply Qlt_le_weak.
      * rewrite Forall_forall in Hall. now apply Hall.
Qed.







Lemma sorted_desc_perm (chunks : list ContextChunk) :
  Permutation (sorted_desc chunks) chunks.
Proof.
  unfold sorted_desc. induction chunks as [|c chunks IH]; cbn [fold_right].
  - constructor.
  - rewrite insert_desc_perm. now constructor.
Qed.

Lemma sorted_desc_sorted (chunks : list ContextChunk) :
  StronglySorted (fun a b => (score_key b <= score_key a)%Q)
                 (sorted_desc chunks).
Proof.
  unfold sorted_desc. induction chunks as [|c chunks IH]; cbn [fold_right].
  - constructor.
  - now apply insert_desc_sorted.
Qed.

Lemma render_chunks_blocks (chunks : list ContextChunk) :
  forall i, render_chunks i chunks [] = context_blocks (S i) chunks.
Proof.
  induction chunks as [|c chunks IH]; intros i; [reflexivity|].
  cbn [render_chunks context_blocks].
  rewrite render_chunks_acc, IH. unfold context_block.
  rewrite Nat.add_1_r. cbn [app]. rewrite <- !app_assoc. reflexivity.
Qed.

End ContextOrder.

(** X14: the context written by [format_context] is made of one block
    per chunk it was given, numbered from 1 on, in an order that is a
    rearrangement of these chunks sorted by score from the highest to
    the lowest (a missing score counting as 0). *)
Theorem format_context_order :
  forall chunks : list ContextChunk,
    exists ranked,
      Permutation ranked chunks /\
      StronglySorted (fun a b => (score_key b <= score_key a)%Q) ranked /\
      format_context chunks = context_blocks 1 ranked.
Proof.
  intros chunks. exists (sorted_desc chunks).
  split; [apply sorted_desc_perm|]. split; [apply sorted_desc_sorted|].
  unfold format_context. apply render_chunks_blocks.
Qed.

(** X15: every chunk handed to [format_context] has its text in the
    rendered context, however many chunks there are. *)
Theorem format_context_keeps_every_text :
  forall (chunks : list ContextChunk) (c : ContextChunk),
    In c chunks ->
    exists before after,
      format_context chunks = before ++ get (cc_text c) [] ++ after.
Proof. exact format_context_renders_all. Qed.

Lemma format_context_keeps_every_text_witness :
  exists before after,
    format_context (map result_of_match four_matches)
    = before ++ get (cc_text (result_of_match (match_of "fourth" 4 (1 # 10)))) []
        ++ after.
Proof.
  apply (format_context_keeps_every_text (map result_of_match four_matches)
           (result_of_match (match_of "fourth" 4 (1 # 10)))).
  cbn. auto.
Defined.

(** X16: when the embedding of the query fails on all three attempts,
    [process_query] raises the [RetryError] of the embedding and has
    made three embedding calls and nothing else: the index is not
    queried and the model is not called. *)
Theorem process_query_stops_when_embedding_fails :
  forall (st : Settings) (embed : EmbedScript) (search : SearchScript)
         (generate : GenerateScript) (query namespace : text),
    (forall j, (1 <= j <= 3)%nat -> exists e, embed j = inl e) ->
    (exists msg,
       outcome (process_query st embed search generate query namespace)
       = inl (RetryError (ValueError msg))) /\
    trace (process_query st embed search generate query namespace)
    = [EmbedCall query; Sleep (wait_exponential 1 1 10 1);
       EmbedCall query; Sleep (wait_exponential 1 1 10 2);
       EmbedCall query].
Proof.
  intros st embed search generate query namespace Hfail.
  unfold process_query, embed_query, create_embedding, retry3.
  cbn [retrying].
  destruct (Hfail 1%nat ltac:(lia)) as [e1 E1].
  destruct (Hfail 2%nat ltac:(lia)) as [e2 E2].
  destruct (Hfail 3%nat ltac:(lia)) as [e3 E3]. rewrite E1, E2, E3.
  destruct (create_embedding_attempt_failure e1 query) as [m1 ->].
  destruct (create_embedding_attempt_failure e2 query) as [m2 ->].
  destruct (create_embedding_attempt_failure e3 query) as [m3 ->].
  split; [exists m3; reflexivity | reflexivity].
Qed.

Lemma process_query_stops_when_embedding_fails_witness :
  (exists msg,
     outcome (process_query default_settings unreachable
                (fun _ => inr (Some four_matches))
                (fun _ => inr (of_string "ok"))
                (of_string "q") (of_string "default"))
     = inl (RetryError (ValueError msg))) /\
  trace (process_query default_settings unreachable
           (fun _ => inr (Some four_matches))
           (fun _ => inr (of_string "ok"))
           (of_string "q") (of_string "default"))
  = [EmbedCall (of_string "q"); Sleep (wait_exponential 1 1 10 1);
     EmbedCall (of_string "q"); Sleep (wait_exponential 1 1 10 2);
     EmbedCall (of_string "q")].
Proof.
  apply (process_query_stops_when_embedding_fails default_settings unreachable
           (fun _ => inr (Some four_matches)) (fun _ => inr (of_string "ok"))
           (of_string "q") (of_string "default")).
  intros j _. eexists. reflexivity.
Defined.

(** X17: when the query is embedded at the first attempt and the index
    query fails on all three attempts, [process_query] raises the
    [RetryError] around the store's own last error (no [ValueError] in
    between) after three index queries, and the model is never
    called. *)
Theorem process_query_stops_when_search_fails :
  forall (st : Settings) (embed : EmbedScript) (search : SearchScript)
         (generate : GenerateScript) (query namespace : text)
         (v : vector) (e1 e2 e3 : exn),
    embed 1%nat = inr v ->
    search 1%nat = inl e1 -> search 2%nat = inl e2 -> search 3%nat = inl e3 ->
    outcome (process_query st embed search generate query namespace)
      = inl (RetryError e3) /\
    generate_calls
      (trace (process_query st embed search generate query namespace)) = [] /\
    List.length (flat_map (fun ev => match ev with
                                     | QueryCall _ _ _ => [ev]
                                     | _ => []
                                     end)
      (trace (process_query st embed search generate query namespace)))
    = 3%nat.
Proof.
  intros st embed search generate query namespace v e1 e2 e3 Hv H1 H2 H3.
  unfold process_query, embed_query, create_embedding, retry3,
    similarity_search.
  cbn [retrying]. rewrite Hv, create_embedding_attempt_success.
  cbn [bind]. unfold retry3. cbn [retrying]. rewrite H1, H2, H3.
  repeat split.
Qed.

Lemma process_query_stops_when_search_fails_witness :
  outcome (process_query default_settings (always [1%Q])
             (fun _ => inl (BackendError (of_string "index unavailable")))
             (fun _ => inr (of_string "ok"))
             (of_string "q") (of_string "default"))
    = inl (RetryError (BackendError (of_string "index unavailable"))) /\
  generate_calls
    (trace (process_query default_settings (always [1%Q])
              (fun _ => inl (BackendError (of_string "index unavailable")))
              (fun _ => inr (of_string "ok"))
              (of_string "q") (of_string "default"))) = [] /\
  List.length (flat_map (fun ev => match ev with
                                   | QueryCall _ _ _ => [ev]
                                   | _ => []
                                   end)
    (trace (process_query default_settings (always [1%Q])
              (fun _ => inl (BackendError (of_string "index unavailable")))
              (fun _ => inr (of_string "ok"))
              (of_string "q") (of_string "default"))))
  = 3%nat.
Proof.
  apply (process_query_stops_when_search_fails default_settings (always [1%Q])
           (fun _ => inl (BackendError (of_string "index unavailable")))
           (fun _ => inr (of_string "ok")) (of_string "q") (of_string "default")
           [1%Q]
           (BackendError (of_string "index unavailable"))
           (BackendError (of_string "index unavailable"))
           (BackendError (of_string "index unavailable"))); reflexivity.
Defined.





(** X20: when the index lookup of the first attempt returns and no
    batch fails during that attempt, [store_embeddings] returns after
    sending every batch exactly once, in order and without waiting; put
    end to end, the entries sent carry the ids of the chunks in their
    original order. *)
Theorem store_embeddings_single_run :
  forall (index_name : text) (cached : option text)
         (client : nat -> ClientAnswers) (script : nat -> UpsertRun)
         (chunks : list EmbeddedChunk) (namespace : text),
    (exists index,
       outcome (get_index index_name cached (client 1%nat)) = inr index) ->
    (forall k, exists r, script 1%nat k = inr r) ->
    (exists n,
       outcome (store_embeddings index_name cached client script chunks
                  namespace) = inr n) /\
    upsert_calls (trace (store_embeddings index_name cached client script
                           chunks namespace))
      = range_groups batch_size (prepare_vectors chunks) /\
    sleeps (trace (store_embeddings index_name cached client script chunks
                     namespace)) = [] /\
    map entry_id (List.concat
      (upsert_calls (trace (store_embeddings index_name cached client script
                              chunks namespace))))
      = map ec_chunk_id chunks.
Proof.
  intros index_name cached client script chunks namespace [index Hindex] Hok.
  assert (Hrun : exists n,
            outcome (store_embeddings index_name cached client script chunks
                       namespace) = inr n /\
            upsert_calls (trace (store_embeddings index_name cached client
                                   script chunks namespace))
              = range_groups batch_size (prepare_vectors chunks) /\
            sleeps (trace (store_embeddings index_name cached client script
                             chunks namespace)) = []).
  { unfold store_embeddings, retry3. cbn [retrying].
    destruct (store_embeddings_attempt index_name cached client script chunks
                namespace 1) as (C & S & O).
    unfold upsert_attempt in C, O. cbn [pred index_state] in *.
    rewrite Hindex in C, O.
    rewrite (pass_over_all_ok (script 1%nat) Hok) in C, O.
    cbn [fst snd] in C, O. destruct O as [n O].
    destruct (store_embeddings_body (get_index index_name cached (client 1%nat))
                (script 1%nat) chunks namespace) as [tr r].
    cbn [trace outcome fst snd] in C, S, O. subst r.
    exists n. cbn [try_except trace outcome fst snd].
    rewrite ?app_nil_r. repeat split; assumption. }
  destruct Hrun as (n & Hout & Hcalls & Hsleeps).
  split; [now exists n|]. split; [exact Hcalls|]. split; [exact Hsleeps|].
  rewrite Hcalls, concat_range_groups by (unfold batch_size; lia).
  unfold prepare_vectors. rewrite map_map. reflexivity.
Qed.

Lemma store_embeddings_single_run_witness :
  (exists n,
     outcome (store_embeddings (of_string "rag") None
                (healthy_client (of_string "rag")) (fun _ _ => inr (Some 1))
                many_chunks (of_string "default")) = inr n) /\
  upsert_calls (trace (store_embeddings (of_string "rag") None
                         (healthy_client (of_string "rag"))
                         (fun _ _ => inr (Some 1)) many_chunks
                         (of_string "default")))
    = range_groups batch_size (prepare_vectors many_chunks) /\
  sleeps (trace (store_embeddings (of_string "rag") None
                   (healthy_client (of_string "rag"))
                   (fun _ _ => inr (Some 1)) many_chunks
                   (of_string "default"))) = [] /\
  map entry_id (List.concat
    (upsert_calls (trace (store_embeddings (of_string "rag") None
                            (healthy_client (of_string "rag"))
                            (fun _ _ => inr (Some 1)) many_chunks
                            (of_string "default")))))
    = map ec_chunk_id many_chunks.
Proof.
  apply (store_embeddings_single_run (of_string "rag") None
           (healthy_client (of_string "rag")) (fun _ _ => inr (Some 1))
           many_chunks (of_string "default")).
  - exists (of_string "rag"). vm_compute. reflexivity.
  - intros k. eexists. reflexivity.
Defined.

(* ================================================================== *)
(** * The rate limiter *)
(* ================================================================== *)

Section RateLimiterFacts.

Import RateLimiter.

Lemma recent_now (t : timestamp) : recent t t = true.
Proof.
  unfold recent. destruct (Qle_bool 60 (t - t)) eqn:E; [|reflexivity].
  apply Qle_bool_iff in E. lra.
Qed.

(** What is recent at a later reading was recent at an earlier one. *)
Lemma recent_earlier (earlier later x : timestamp) :
  (earlier <= later)%Q -> recent later x = true -> recent earlier x = true.
Proof.
  unfold recent. intros Hle H.
  destruct (Qle_bool 60 (earlier - x)) eqn:E; [|reflexivity].
  apply Qle_bool_iff in E.
  destruct (Qle_bool 60 (later - x)) eqn:E'; [discriminate|].
  assert (60 <= later - x)%Q by lra.
  apply Qle_bool_iff in H0. congruence.
Qed.

Lemma filter_recent_twice (earlier later : timestamp) (log : list timestamp) :
  (earlier <= later)%Q ->
  filter (recent later) (filter (recent earlier) log)
  = filter (recent later) log.
Proof.
  intros Hle. induction log as [|x log IH]; [reflexivity|].
  cbn [filter]. destruct (recent earlier x) eqn:E1.
  - cbn [filter]. now rewrite IH.
  - rewrite IH. destruct (recent later x) eqn:E2; [|reflexivity].
    rewrite (recent_earlier earlier later x Hle E2) in E1. discriminate.
Qed.

Lemma filter_length_le {X} (f : X -> bool) (l : list X) :
  (List.length (filter f l) <= List.length l)%nat.
Proof.
  induction l as [|x l IH]; cbn [filter List.length]; [lia|].
  destruct (f x); cbn [List.length]; lia.
Qed.

Lemma stored_set_same (h : text -> option (list timestamp)) (ip : text)
    (ts : list timestamp) (rpm : Z) :
  stored (mkLimiter rpm (set_history h ip ts)) ip = ts.
Proof.
  unfold stored, set_history. cbn. now rewrite text_eqb_refl.
Qed.

(** One request: how the stored stamps and the log of admitted
    requests evolve together. *)
Lemma is_rate_limited_step (l : limiter) (ip : text) (log : list timestamp)
    (previous now : timestamp) :
  (previous <= now)%Q ->
  stored l ip = filter (recent previous) log ->
  Z.of_nat (List.length (stored l ip)) <= requests_per_minute l ->
  requests_per_minute (snd (is_rate_limited l now ip)) = requests_per_minute l /\
  stored (snd (is_rate_limited l now ip)) ip
  = filter (recent now)
      (log ++ if fst (is_rate_limited l now ip) then [] else [now]) /\
  Z.of_nat (List.length (stored (snd (is_rate_limited l now ip)) ip))
    <= requests_per_minute l.
Proof.
  intros Hle Hstored Hbound.
  unfold is_rate_limited. fold (stored l ip).
  pose proof (filter_length_le (recent now) (stored l ip)) as Hkept.
  assert (Hfilter : filter (recent now) (stored l ip) = filter (recent now) log).
  { rewrite Hstored. now apply filter_recent_twice. }
  destruct (Z.leb_spec (requests_per_minute l)
              (Z.of_nat (List.length (filter (recent now) (stored l ip)))))
    as [Hfull|Hroom]; cbn [fst snd requests_per_minute].
  - rewrite stored_set_same, app_nil_r. repeat split; [exact Hfilter | lia].
  - rewrite stored_set_same. split; [reflexivity|]. split.
    + rewrite filter_app, Hfilter. cbn [filter]. now rewrite recent_now.
    + rewrite length_app. cbn [List.length]. lia.
Qed.

Lemma last_nonempty {X} (x : X) (l : list X) (d d' : X) :
  last (x :: l) d = last (x :: l) d'.
Proof.
  revert x. induction l as [|y l IH]; intros x; [reflexivity|].
  cbn [last] in *. apply IH.
Qed.

Lemma serve_window (ip : text) (times : list timestamp) :
  forall (l : limiter) (log : list timestamp) (previous : timestamp),
    StronglySorted Qle (previous :: times) ->
    stored l ip = filter (recent previous) log ->
    Z.of_nat (List.length (stored l ip)) <= requests_per_minute l ->
    Z.of_nat (List.length
      (filter (recent (last times previous))
              (log ++ admitted times (fst (serve l ip times)))))
      <= requests_per_minute l.
Proof.
  induction times as [|t times IH]; intros l log previous Hsorted Hstored Hbound.
  - cbn [serve fst admitted last]. rewrite app_nil_r, <- Hstored. exact Hbound.
  - inversion Hsorted as [|? ? Hrest Hall]; subst.
    inversion Hall as [|? ? Hpt _]; subst.
    destruct (is_rate_limited_step l ip log previous t Hpt Hstored Hbound)
      as (Hrpm & Hstored' & Hbound').
    cbn [serve].
    destruct (is_rate_limited l t ip) as [limited l'] eqn:Estep.
    cbn [fst snd] in Hrpm, Hstored', Hbound'.
    specialize (IH l' (log ++ if limited then [] else [t]) t Hrest Hstored').
    rewrite Hrpm in IH. specialize (IH Hbound').
    destruct (serve l' ip times) as [answers l''] eqn:Eserve.
    cbn [fst] in *.
    replace (last (t :: times) previous) with (last times t)
      by (destruct times as [|t1 times1]; [reflexivity|];
          change (last (t :: t1 :: times1) previous)
            with (last (t1 :: times1) previous); apply last_nonempty).

    destruct limited; cbn [admitted].
    + rewrite app_nil_r in IH. exact IH.
    + rewrite <- app_assoc in IH. exact IH.
Qed.

End RateLimiterFacts.

(** X21: one call of [is_rate_limited] keeps the limit, leaves the
    history of every other client untouched, answers "limited" exactly
    when the client already has [requests_per_minute] or more stamps
    younger than 60 seconds, and afterwards stores for the client only
    stamps younger than 60 seconds. *)
Theorem is_rate_limited_effect :
  forall (l : RateLimiter.limiter) (now : RateLimiter.timestamp) (ip : text),
    RateLimiter.requests_per_minute (snd (RateLimiter.is_rate_limited l now ip))
      = RateLimiter.requests_per_minute l /\
    (forall other, other <> ip ->
       RateLimiter.request_history (snd (RateLimiter.is_rate_limited l now ip)) other
       = RateLimiter.request_history l other) /\
    (fst (RateLimiter.is_rate_limited l now ip) = true <->
     RateLimiter.requests_per_minute l
       <= Z.of_nat (List.length (filter (RateLimiter.recent now) (stored l ip)))) /\
    (exists ts,
       RateLimiter.request_history (snd (RateLimiter.is_rate_limited l now ip)) ip
         = Some ts /\
       Forall (fun x => RateLimiter.recent now x = true) ts).
Proof.
  intros l now ip. unfold RateLimiter.is_rate_limited. fold (stored l ip).
  assert (Hkept : Forall (fun x => RateLimiter.recent now x = true)
                    (filter (RateLimiter.recent now) (stored l ip))).
  { apply Forall_forall. intros x Hx. apply filter_In in Hx. tauto. }
  destruct (Z.leb_spec (RateLimiter.requests_per_minute l)
              (Z.of_nat (List.length
                 (filter (RateLimiter.recent now) (stored l ip)))))
    as [Hfull|Hroom];
    cbn [fst snd RateLimiter.requests_per_minute RateLimiter.request_history];
    (split; [reflexivity|]); split.
  - intros other Hne. unfold RateLimiter.set_history.
    now rewrite text_eqb_neq.
  - split; [tauto|]. unfold RateLimiter.set_history. rewrite text_eqb_refl.
    eexists. split; [reflexivity | exact Hkept].
  - intros other Hne. unfold RateLimiter.set_history.
    now rewrite text_eqb_neq.
  - split; [split; [discriminate | lia]|].
    unfold RateLimiter.set_history. rewrite text_eqb_refl.
    eexists. split; [reflexivity|].
    apply Forall_app. split; [exact Hkept|].
    constructor; [apply recent_now | constructor].
Qed.

(** X22: a fresh limiter with a non-negative limit, serving one client
    whose requests arrive at non-decreasing clock readings, never lets
    through more than [requests_per_minute] requests within the 60
    seconds that end at any of its requests. *)
Theorem rate_limiter_window :
  forall (requests_per_minute : Z) (ip : text)
         (earlier : list RateLimiter.timestamp) (now : RateLimiter.timestamp),
    0 <= requests_per_minute ->
    StronglySorted Qle (earlier ++ [now]) ->
    Z.of_nat (List.length
      (filter (RateLimiter.recent now)
         (admitted (earlier ++ [now])
            (fst (RateLimiter.serve (RateLimiter.new requests_per_minute) ip
                    (earlier ++ [now]))))))
      <= requests_per_minute.
Proof.
  intros rpm ip earlier now Hrpm Hsorted.
  assert (Hfirst : exists t0, StronglySorted Qle (t0 :: earlier ++ [now])).
  { destruct earlier as [|t0 earlier].
    - exists now. repeat constructor. apply Qle_refl.
    - exists t0. constructor; [exact Hsorted|].
      inversion Hsorted as [|? ? _ Hall]; subst.
      constructor; [apply Qle_refl | exact Hall]. }
  destruct Hfirst as [t0 Hsorted0].
  pose proof (serve_window ip (earlier ++ [now]) (RateLimiter.new rpm) [] t0
                Hsorted0 eq_refl) as H.
  cbn [app] in H. rewrite last_last in H. apply H. cbn. exact Hrpm.
Qed.

Lemma rate_limiter_window_witness :
  Z.of_nat (List.length
    (filter (RateLimiter.recent 61%Q)
       (admitted ([0%Q; 1%Q; 2%Q] ++ [61%Q])
          (fst (RateLimiter.serve (RateLimiter.new 2) (of_string "10.0.0.1")
                  ([0%Q; 1%Q; 2%Q] ++ [61%Q]))))))
    <= 2.
Proof.
  apply (rate_limiter_window 2 (of_string "10.0.0.1") [0%Q; 1%Q; 2%Q] 61%Q).
  - lia.
  - repeat constructor; cbv; discriminate.
Defined.

(* ================================================================== *)
(** * The command-line chatbot's query path and blank documents *)
(* ================================================================== *)

Section ChatbotChat.


Lemma lstrip_blank (s : text) :
  Forall (fun c => is_space c = true) s -> lstrip s = [].
Proof.
  intros H. induction H as [|c s Hc _ IH]; cbn [lstrip]; [reflexivity|].
  now rewrite Hc.
Qed.

Lemma strip_blank (s : text) :
  Forall (fun c => is_space c = true) s -> strip s = [].
Proof. intros H. unfold strip. now rewrite (lstrip_blank s H). Qed.

Lemma slice_blank (s : text) (i j : Z) :
  Forall (fun c => is_space c = true) s ->
  Forall (fun c => is_space c = true) (slice s i j).
Proof.
  intros H. rewrite Forall_forall in *. intros c Hc.
  apply H. now apply slice_incl in Hc.
Qed.

Lemma chatbot_loop_blank (t : text) (cs ov : Z) :
  Forall (fun c => is_space c = true) t -> ov < cs ->
  forall (fuel : nat) (start : Z) (acc : list text),
    Z.max 0 (len t - start) < Z.of_nat fuel ->
    ChatbotIngest.chunk_loop fuel t cs ov start acc = Some acc.
Proof.
  intros Hblank Hstep. induction fuel as [|fuel IH]; intros start acc Hfuel;
    [lia|].
  cbn [ChatbotIngest.chunk_loop].
  destruct (Z.ltb_spec start (len t)); [|reflexivity].
  rewrite (strip_blank _ (slice_blank t start (start + cs) Hblank)).
  apply IH. lia.
Qed.

End ChatbotChat.



(** X24: on a text longer than the chunk size that contains only
    whitespace, [RAGChatbot.chunk_text] returns no chunk at all (every
    window is stripped to the empty string and dropped), so
    [add_document] would hand [collection.add] empty lists. *)
Theorem chatbot_chunk_text_blank :
  forall (t : text) (chunk_size overlap : Z) (fuel : nat),
    Forall (fun c => is_space c = true) t ->
    overlap < chunk_size -> chunk_size < len t -> len t < Z.of_nat fuel ->
    ChatbotIngest.chunk_text fuel t chunk_size overlap = Some [].
Proof.
  intros t cs ov fuel Hblank Hstep Hlong Hfuel.
  unfold ChatbotIngest.chunk_text.
  destruct (Z.leb_spec (len t) cs); [lia|].
  apply chatbot_loop_blank; try assumption.
  pose proof (len_nonneg t). lia.
Qed.

Lemma chatbot_chunk_text_blank_witness :
  ChatbotIngest.chunk_text 10 (of_string "      ") 4 1 = Some [].
Proof.
  apply (chatbot_chunk_text_blank (of_string "      ") 4 1 10).
  - repeat constructor.
  - lia.
  - vm_compute. reflexivity.
  - vm_compute. reflexivity.
Defined.
